(** * Relation metadata cache of the pglogical output plugin

    A shallow embedding of [pglogical_relmetacache.c]: the per-session hash
    table of [PGLRelMetaCacheEntry], the relcache invalidation callback, the
    lookup-or-create entry point, session teardown and the pruning pass,
    followed by the properties of the cache that the specification states. *)

From stdpp Require Import gmap strings list fin_maps.

Local Open Scope N_scope.

(** ** Data model *)

(** [Oid] and [Datum] are PostgreSQL's unsigned integer types; the cache only
    compares and stores them. *)
Abbreviation Oid := N (only parsing).
Abbreviation Datum := N (only parsing).

(** Modelled from the spec: [struct PGLRelMetaCacheEntry] is declared in
    pglogical_relmetacache.h, which is not part of the sources at hand. The
    fields [relid], [is_cached] and [is_valid] are the ones the C file reads
    and writes (the spec calls them resource id, metadata_sent and valid);
    [api_private] is the opaque payload slot the spec reserves for the
    collaborator. *)
Record PGLRelMetaCacheEntry : Type := mkEntry {
  relid : Oid;
  is_cached : bool;
  is_valid : bool;
  api_private : N
}.

#[global] Instance PGLRelMetaCacheEntry_eq_dec : EqDecision PGLRelMetaCacheEntry.
Proof. solve_decision. Defined.

Definition set_relid (v : Oid) (e : PGLRelMetaCacheEntry) : PGLRelMetaCacheEntry :=
  mkEntry v (is_cached e) (is_valid e) (api_private e).
Definition set_is_cached (v : bool) (e : PGLRelMetaCacheEntry) : PGLRelMetaCacheEntry :=
  mkEntry (relid e) v (is_valid e) (api_private e).
Definition set_is_valid (v : bool) (e : PGLRelMetaCacheEntry) : PGLRelMetaCacheEntry :=
  mkEntry (relid e) (is_cached e) v (api_private e).

(** A dynahash table keyed by [Oid]. An entry pointer handed out by
    [hash_search] is modelled by the key under which the entry is stored;
    a write [hentry->f = v] is an [alter] at that key. *)
Abbreviation HTAB := (gmap N PGLRelMetaCacheEntry) (only parsing).

(** dynahash keeps the key inside the entry (its first [keysize] bytes), so
    in a table nobody scribbled over, every entry sits under its own
    [relid]. Every function of the file keeps tables that way, and the
    model of dynahash below describes such tables only. *)
Definition htab_wf (h : HTAB) : Prop :=
  map_Forall (λ k e, relid e = k) h.

(** The only function ever handed to [CacheRegisterRelcacheCallback] here. *)
Inductive RelcacheCallbackFunction : Type :=
  | relmeta_cache_callback_fn.

(** Process-wide state: the two statics of the C file, the host's list of
    registered relcache callbacks, and the hash tables that are currently
    allocated, by address. [RelMetaCache = None] is the NULL pointer; a
    pointer whose address is no longer in [hash_tables] is dangling. *)
Record process_state : Type := mkProcess {
  RelMetaCache : option N;
  callback_registered : bool;
  relcache_callback_list : list (RelcacheCallbackFunction * Datum);
  hash_tables : gmap N (gmap N PGLRelMetaCacheEntry)
}.

Definition set_RelMetaCache (v : option N) (g : process_state) : process_state :=
  mkProcess v (callback_registered g) (relcache_callback_list g) (hash_tables g).
Definition set_callback_registered (v : bool) (g : process_state) : process_state :=
  mkProcess (RelMetaCache g) v (relcache_callback_list g) (hash_tables g).
Definition set_relcache_callback_list
    (v : list (RelcacheCallbackFunction * Datum)) (g : process_state) : process_state :=
  mkProcess (RelMetaCache g) (callback_registered g) v (hash_tables g).
Definition set_hash_tables
    (v : gmap N (gmap N PGLRelMetaCacheEntry)) (g : process_state) : process_state :=
  mkProcess (RelMetaCache g) (callback_registered g) (relcache_callback_list g) v.

(** State of a backend that has never started a decoding session. *)
Definition initial_process : process_state :=
  mkProcess None false [] ∅.

(** ** Results of a call *)

Inductive fault : Type :=
  | NullPointer     (* dereference of NULL *)
  | FreedPointer.   (* dereference of a destroyed hash table *)

Inductive outcome (A : Type) : Type :=
  | Done (a : A)                (* normal return *)
  | Trap                        (* failed Assert, assert-enabled builds *)
  | ElogERROR (msg : string)    (* elog(ERROR, msg) *)
  | Undefined (f : fault).      (* the C code has no defined behaviour *)

Arguments Done {A} a.
Arguments Trap {A}.
Arguments ElogERROR {A} msg.
Arguments Undefined {A} f.

#[global] Instance outcome_bind : MBind outcome := λ A B k m,
  match m with
  | Done a => k a
  | Trap => Trap
  | ElogERROR msg => ElogERROR msg
  | Undefined f => Undefined f
  end.

(** ** dynahash, as far as the cache uses it *)

(** [hash_create]: a new empty table at an address that is not in use and
    is not the NULL address. *)
Definition hash_create (g : process_state) : N * process_state :=
  let p := fresh ({[0]} ∪ dom (hash_tables g)) in
  (p, set_hash_tables (<[p := ∅]> (hash_tables g)) g).

(** What every dynahash call on [hashp] starts with: reading the table
    header through the pointer. *)
Definition deref_htab (hashp : option N) (g : process_state) : outcome (gmap N PGLRelMetaCacheEntry) :=
  match hashp with
  | None => Undefined NullPointer
  | Some p =>
      match hash_tables g !! p with
      | None => Undefined FreedPointer
      | Some h => Done h
      end
  end.

Definition store_htab (hashp : option N) (h : HTAB) (g : process_state) : process_state :=
  match hashp with
  | None => g
  | Some p => set_hash_tables (<[p := h]> (hash_tables g)) g
  end.

(** [hash_search(h, &key, HASH_FIND, NULL)]. *)
Definition hash_search_FIND (h : HTAB) (key : Oid) : option PGLRelMetaCacheEntry :=
  h !! key.

(** [hash_search(h, &key, HASH_ENTER, &found)]. When the key is new, dynahash
    links a free element into the table and copies the key into it; the rest
    of the element is whatever the memory held ("caller is expected to fill
    the data field on return"). [raw] is that prior content. *)
Definition hash_search_ENTER (h : HTAB) (key : Oid) (raw : PGLRelMetaCacheEntry)
    : gmap N PGLRelMetaCacheEntry * PGLRelMetaCacheEntry * bool :=
  match h !! key with
  | Some e => (h, e, true)
  | None => let e := set_relid key raw in (<[key := e]> h, e, false)
  end.

(** [hash_search(h, &key, HASH_REMOVE, NULL)]: [None] is the NULL result. *)
Definition hash_search_REMOVE (h : HTAB) (key : Oid)
    : option (gmap N PGLRelMetaCacheEntry * PGLRelMetaCacheEntry) :=
  match h !! key with
  | Some e => Some (delete key h, e)
  | None => None
  end.

(** [hash_seq_init] / [hash_seq_search]: the entries the scan hands out.
    dynahash's scan is live, but it allows deleting the element just
    returned, and that is the only deletion the pruning loop performs on a
    table satisfying [htab_wf]; there the scan returns exactly the entries
    present when it was started. Outside [htab_wf] this snapshot is not the
    scan of the code. *)
Definition hash_seq (h : HTAB) : list PGLRelMetaCacheEntry :=
  (map_to_list h).*2.

(** [hash_destroy(RelMetaCache)]. *)
Definition hash_destroy (hashp : option N) (g : process_state) : outcome process_state :=
  match hashp with
  | None => Undefined NullPointer
  | Some p =>
      match hash_tables g !! p with
      | None => Undefined FreedPointer
      | Some _ => Done (set_hash_tables (delete p (hash_tables g)) g)
      end
  end.

(** ** The functions of pglogical_relmetacache.c *)

(** [pglogical_init_relmetacache]. [cassert] says whether the build has
    assertions enabled. The callback is registered with [(Datum) 0]. *)
Definition pglogical_init_relmetacache (cassert : bool) (g : process_state)
    : outcome process_state :=
  if cassert && bool_decide (RelMetaCache g ≠ None) then Trap
  else
    let '(p, g1) := hash_create g in
    let g2 := set_RelMetaCache (Some p) g1 in
    if negb (callback_registered g2) then
      Done (set_callback_registered true
              (set_relcache_callback_list
                 (relcache_callback_list g2 ++ [(relmeta_cache_callback_fn, 0)]) g2))
    else Done g2.

(** [relmeta_cache_callback]. *)
Definition relmeta_cache_callback (arg : Datum) (relid : Oid) (g : process_state)
    : outcome process_state :=
  match RelMetaCache g with
  | None => Done g
  | Some p =>
      h ← deref_htab (Some p) g;
      match hash_search_FIND h relid with
      | Some _ => Done (store_htab (Some p) (alter (set_is_valid false) relid h) g)
      | None => Done g
      end
  end.

(** [pglogical_cache_relmeta]. [rel_relid] is [RelationGetRelid(rel)]; the
    result carries the new state, the pointer stored into [*entry] and the
    returned boolean. [Assert(hentry->relid = RelationGetRelid(rel))] is an
    assignment of the value the key already has, whose result the assertion
    tests for being non-zero. *)
Definition pglogical_cache_relmeta (cassert : bool) (raw : PGLRelMetaCacheEntry)
    (rel_relid : Oid) (g : process_state) : outcome (process_state * (Oid * bool)) :=
  h ← deref_htab (RelMetaCache g) g;
  let '(h1, hentry, found) := hash_search_ENTER h rel_relid raw in
  if negb found then
    if cassert && bool_decide (rel_relid = 0) then Trap
    else
      let hentry' := set_is_cached false hentry in
      Done (store_htab (RelMetaCache g) (alter (set_is_cached false) rel_relid h1) g,
            (rel_relid, is_cached hentry'))
  else
    Done (store_htab (RelMetaCache g) h1 g, (rel_relid, is_cached hentry)).

(** Statements run one after the other; [exec_trace] lists the state after
    each statement that completed. *)
Fixpoint exec (body : list (process_state → outcome process_state)) (g : process_state)
    : outcome process_state :=
  match body with
  | [] => Done g
  | s :: rest => g' ← s g; exec rest g'
  end.

Fixpoint exec_trace (body : list (process_state → outcome process_state))
    (g : process_state) : list process_state :=
  match body with
  | [] => []
  | s :: rest =>
      match s g with
      | Done g' => g' :: exec_trace rest g'
      | _ => []
      end
  end.

(** [pglogical_destroy_relmetacache]: the two statements of the guarded
    block, in source order. *)
Definition pglogical_destroy_relmetacache_body (g : process_state)
    : list (process_state → outcome process_state) :=
  match RelMetaCache g with
  | Some _ =>
      [ (λ g, hash_destroy (RelMetaCache g) g);
        (λ g, Done (set_RelMetaCache None g)) ]
  | None => []
  end.

Definition pglogical_destroy_relmetacache (g : process_state) : outcome process_state :=
  exec (pglogical_destroy_relmetacache_body g) g.

(** The [while] loop of [pglogical_prune_relmetacache] over the entries the
    sequential scan hands out. *)
Fixpoint prune_loop (scan : list PGLRelMetaCacheEntry) (h : HTAB)
    : outcome (gmap N PGLRelMetaCacheEntry) :=
  match scan with
  | [] => Done h
  | hentry :: rest =>
      if negb (is_valid hentry) then
        match hash_search_REMOVE h (relid hentry) with
        | None => ElogERROR "hash table corrupted"%string
        | Some (h', _) => prune_loop rest h'
        end
      else prune_loop rest h
  end.

(** Keys of the entries of a scan that the loop removes. *)
Definition doomed (scan : list PGLRelMetaCacheEntry) : list N :=
  relid <$> filter (λ e, is_valid e = false) scan.

(** [pglogical_prune_relmetacache]. *)
Definition pglogical_prune_relmetacache (g : process_state) : outcome process_state :=
  h ← deref_htab (RelMetaCache g) g;
  h' ← prune_loop (hash_seq h) h;
  Done (store_htab (RelMetaCache g) h' g).

(** ** Sequences of calls made by the output plugin and the host *)

Inductive call : Type :=
  | Init                                            (* pglogical_init_relmetacache *)
  | Invalidate (arg : Datum) (relid : Oid)          (* relmeta_cache_callback *)
  | Lookup (raw : PGLRelMetaCacheEntry) (relid : Oid) (* pglogical_cache_relmeta *)
  | Destroy                                         (* pglogical_destroy_relmetacache *)
  | Prune.                                          (* pglogical_prune_relmetacache *)

Definition is_Init (c : call) : bool :=
  match c with Init => true | _ => false end.

Definition step (cassert : bool) (c : call) (g : process_state) : outcome process_state :=
  match c with
  | Init => pglogical_init_relmetacache cassert g
  | Invalidate arg relid => relmeta_cache_callback arg relid g
  | Lookup raw relid => r ← pglogical_cache_relmeta cassert raw relid g; Done r.1
  | Destroy => pglogical_destroy_relmetacache g
  | Prune => pglogical_prune_relmetacache g
  end.

Fixpoint run (cassert : bool) (cs : list call) (g : process_state) : outcome process_state :=
  match cs with
  | [] => Done g
  | c :: rest => g' ← step cassert c g; run cassert rest g'
  end.

(** The table the static pointer designates, when it designates one. *)
Definition bound_table (g : process_state) : option (gmap N PGLRelMetaCacheEntry) :=
  p ← RelMetaCache g; hash_tables g !! p.

(** The static pointer is NULL or points at a table that still exists. *)
Definition handle_ok (g : process_state) : Prop :=
  ∀ p, RelMetaCache g = Some p → is_Some (hash_tables g !! p).

(** Every allocated table keeps each entry under its own key. *)
Definition tables_wf (g : process_state) : Prop :=
  map_Forall (λ _ h, htab_wf h) (hash_tables g).

(** Number of times the callback is on the host's list. *)
Definition registrations (g : process_state) : nat :=
  length (relcache_callback_list g).

(** What holds between any two calls: no dangling pointer, no corrupted
    table. *)
Definition session_inv (g : process_state) : Prop :=
  handle_ok g ∧ tables_wf g.

(** The registration part of the process state. *)
Definition registration (g : process_state)
    : bool * list (RelcacheCallbackFunction * Datum) :=
  (callback_registered g, relcache_callback_list g).

(** The flag has value [b] and the host's list agrees with it. *)
Definition registered_as (b : bool) (g : process_state) : Prop :=
  callback_registered g = b ∧ registrations g = if b then 1%nat else 0%nat.

(** A process in the middle of a decoding session: callback registered,
    the session's table [h] allocated at address [1]. *)
Definition session_with (h : HTAB) : process_state :=
  mkProcess (Some 1) true [(relmeta_cache_callback_fn, 0)] {[1 := h]}.

(** Give every entry of every table the [is_cached] value [c] chooses for
    its key; used to say that a function does not look at [is_cached]. *)
Definition overwrite_is_cached (c : Oid → bool) (g : process_state) : process_state :=
  set_hash_tables
    ((λ h : gmap N PGLRelMetaCacheEntry, (λ e, set_is_cached (c (relid e)) e) <$> h)
       <$> hash_tables g) g.

(** The table at address [p] has an entry for [k] whose [is_cached] is
    set. *)
Definition cached_at (g : process_state) (p : N) (k : Oid) : Prop :=
  ∃ h e, hash_tables g !! p = Some h ∧ h !! k = Some e ∧ is_cached e = true.

(** Calls the output plugin and the host make between the start and the end
    of a decoding session. A lookup of [InvalidOid] is left out where the
    build checks assertions. *)
Definition session_call (cassert : bool) (c : call) : bool :=
  match c with
  | Invalidate _ _ => true
  | Lookup _ relid => negb (cassert && bool_decide (relid = 0))
  | Prune => true
  | Init | Destroy => false
  end.

(** Lookups and notifications: the calls that neither prune nor start or
    end a session. *)
Definition lookup_or_invalidate (c : call) : bool :=
  match c with
  | Invalidate _ _ | Lookup _ _ => true
  | Init | Destroy | Prune => false
  end.

(** ** The code on small inputs *)

Example init_first_session :
  pglogical_init_relmetacache true initial_process = Done (session_with ∅).
Proof. vm_compute. reflexivity. Qed.

Example init_while_bound_traps :
  pglogical_init_relmetacache true (session_with ∅) = Trap.
Proof. reflexivity. Qed.

Example lookup_creates_then_finds :
  run false [Init; Lookup (mkEntry 0 true true 0) 42; Lookup (mkEntry 0 true true 0) 42]
      initial_process
  = Done (session_with {[42 := mkEntry 42 false true 0]}).
Proof. vm_compute. reflexivity. Qed.

Example lookup_without_session :
  pglogical_cache_relmeta false (mkEntry 0 true true 0) 42 initial_process
  = Undefined NullPointer.
Proof. reflexivity. Qed.

Example lookup_of_InvalidOid_traps :
  pglogical_cache_relmeta true (mkEntry 0 true true 0) 0 (session_with ∅) = Trap.
Proof. vm_compute. reflexivity. Qed.

Example prune_two_relations :
  pglogical_prune_relmetacache
    (session_with {[1 := mkEntry 1 true false 0; 2 := mkEntry 2 true true 0]})
  = Done (session_with {[2 := mkEntry 2 true true 0]}).
Proof. vm_compute. reflexivity. Qed.

Example session_end_to_end :
  run true [Init; Lookup (mkEntry 0 true true 0) 42; Invalidate 0 42; Invalidate 0 7;
            Prune; Destroy; Invalidate 0 42]
      initial_process
  = Done (mkProcess None true [(relmeta_cache_callback_fn, 0)] ∅).
Proof. vm_compute. reflexivity. Qed.

(** ** Auxiliary facts *)

Section prune_loop_facts.
Implicit Types (h : gmap N PGLRelMetaCacheEntry) (scan : list PGLRelMetaCacheEntry).

Lemma doomed_cons_valid e scan :
  is_valid e = true → doomed (e :: scan) = doomed scan.
Proof.
  intros Hv. unfold doomed. rewrite filter_cons_False; [done | congruence].
Qed.

Lemma doomed_cons_invalid e scan :
  is_valid e = false → doomed (e :: scan) = relid e :: doomed scan.
Proof.
  intros Hv. unfold doomed. by rewrite filter_cons_True.
Qed.

(** On a scan whose entries are all still in the table under their own
    key, the loop finishes and deletes exactly the doomed keys. *)
Lemma prune_loop_lookup scan : ∀ h,
  NoDup (relid <$> scan) →
  (∀ e, e ∈ scan → h !! relid e = Some e) →
  ∃ h', prune_loop scan h = Done h' ∧
        ∀ k, h' !! k = if bool_decide (k ∈ doomed scan) then None else h !! k.
Proof.
  induction scan as [|e scan IH]; intros h Hnd Hin; cbn [prune_loop].
  - by exists h.
  - rewrite fmap_cons in Hnd. apply NoDup_cons in Hnd as [Hfresh Hnd].
    destruct (is_valid e) eqn:Hv; simpl.
    + destruct (IH h Hnd) as (h' & Hrun & Hlook).
      { intros e' He'. apply Hin. by right. }
      exists h'. split; [done |]. intros k.
      by rewrite doomed_cons_valid.
    + unfold hash_search_REMOVE. rewrite (Hin e) by left.
      destruct (IH (delete (relid e) h) Hnd) as (h' & Hrun & Hlook).
      { intros e' He'. rewrite lookup_delete_ne.
        - apply Hin. by right.
        - intros Heq. apply Hfresh. rewrite Heq.
          apply list_elem_of_fmap. by exists e'. }
      exists h'. split; [done |]. intros k.
      rewrite Hlook, doomed_cons_invalid by done.
      destruct (decide (k = relid e)) as [->|Hne].
      * rewrite lookup_delete_eq.
        rewrite (bool_decide_eq_true_2 (relid e ∈ relid e :: _)) by left.
        by case_bool_decide.
      * rewrite lookup_delete_ne by done.
        case_bool_decide as H1; case_bool_decide as H2; try done.
        -- exfalso. apply H2. by right.
        -- exfalso. apply elem_of_cons in H2 as [?|?]; done.
Qed.

(** The loop only ever deletes. *)
Lemma prune_loop_subseteq scan : ∀ h h',
  prune_loop scan h = Done h' → h' ⊆ h.
Proof.
  induction scan as [|e scan IH]; intros h h'; simpl.
  - by intros [= <-].
  - destruct (negb (is_valid e)); [|by apply IH].
    unfold hash_search_REMOVE. destruct (h !! relid e); [|done].
    intros Hrun. etrans; [by apply IH | apply delete_subseteq].
Qed.


Lemma elem_of_hash_seq h e :
  e ∈ hash_seq h ↔ ∃ k, h !! k = Some e.
Proof.
  unfold hash_seq. rewrite list_elem_of_fmap. split.
  - intros ([k e'] & -> & Hin). exists k. by apply elem_of_map_to_list in Hin.
  - intros (k & Hk). exists (k, e). split; [done |]. by apply elem_of_map_to_list.
Qed.

Lemma hash_seq_relid h :
  htab_wf h → relid <$> hash_seq h = (map_to_list h).*1.
Proof.
  intros Hwf. unfold hash_seq. rewrite <- list_fmap_compose.
  apply list_fmap_ext. intros i [k e] Hi. simpl.
  apply list_elem_of_lookup_2, elem_of_map_to_list in Hi. by apply Hwf in Hi.
Qed.

(** The pruning loop on a well-formed table: it succeeds and keeps exactly
    the valid entries. *)
Lemma prune_loop_wf h :
  htab_wf h →
  prune_loop (hash_seq h) h = Done (filter (λ kv, is_valid kv.2 = true) h).
Proof.
  intros Hwf.
  destruct (prune_loop_lookup (hash_seq h) h) as (h' & Hrun & Hlook).
  { rewrite hash_seq_relid by done. apply NoDup_fst_map_to_list. }
  { intros e (k & Hk)%elem_of_hash_seq. by rewrite (Hwf k e Hk). }
  rewrite Hrun. f_equal. apply map_eq. intros k. rewrite Hlook.
  destruct (h !! k) as [e|] eqn:Hk.
  - specialize (Hwf k e Hk) as Hrel.
    destruct (is_valid e) eqn:Hv.
    + rewrite bool_decide_eq_false_2.
      * symmetry. by apply map_lookup_filter_Some.
      * unfold doomed. intros (e' & Hrel' & (Hv' & He')%list_elem_of_filter)%list_elem_of_fmap.
        apply elem_of_hash_seq in He' as (k' & Hk').
        specialize (Hwf k' e' Hk'). simpl in Hwf. congruence.
    + rewrite bool_decide_eq_true_2.
      * symmetry. apply map_lookup_filter_None. right. intros e' ? ?. simpl in *. congruence.
      * unfold doomed. apply list_elem_of_fmap. exists e. split; [done |].
        apply list_elem_of_filter. split; [done |]. apply elem_of_hash_seq. eauto.
  - case_bool_decide; symmetry; apply map_lookup_filter_None; left; done.
Qed.
End prune_loop_facts.

Section state_facts.
Implicit Types (g : process_state) (h : gmap N PGLRelMetaCacheEntry).

Lemma deref_htab_bound g p h :
  RelMetaCache g = Some p → hash_tables g !! p = Some h →
  deref_htab (RelMetaCache g) g = Done h.
Proof. intros -> Hp. simpl. by rewrite Hp. Qed.

Lemma store_htab_same g p h :
  hash_tables g !! p = Some h → store_htab (Some p) h g = g.
Proof.
  intros Hp. destruct g as [c r l t]. unfold store_htab, set_hash_tables. simpl in *.
  by rewrite insert_id.
Qed.

Lemma bound_table_Some g p h :
  RelMetaCache g = Some p → hash_tables g !! p = Some h → bound_table g = Some h.
Proof. intros Hc Hp. unfold bound_table. rewrite Hc. simpl. done. Qed.

(** A lookup that finds the key returns the stored flag and writes
    nothing. *)
Lemma cache_relmeta_found cassert raw k g p h e :
  RelMetaCache g = Some p → hash_tables g !! p = Some h → h !! k = Some e →
  pglogical_cache_relmeta cassert raw k g = Done (g, (k, is_cached e)).
Proof.
  intros Hc Hp Hk. unfold pglogical_cache_relmeta.
  rewrite (deref_htab_bound g p h) by done. simpl.
  unfold hash_search_ENTER. rewrite Hk. simpl.
  rewrite Hc. by rewrite store_htab_same.
Qed.

(** A lookup that misses links a new element: key copied in, [is_cached]
    cleared, every other byte as the element memory had it. *)
Lemma cache_relmeta_missing cassert raw k g p h :
  RelMetaCache g = Some p → hash_tables g !! p = Some h → h !! k = None →
  cassert = false ∨ k ≠ 0 →
  pglogical_cache_relmeta cassert raw k g =
    Done (store_htab (Some p)
            (<[k := mkEntry k false (is_valid raw) (api_private raw)]> h) g,
          (k, false)).
Proof.
  intros Hc Hp Hk Hok. unfold pglogical_cache_relmeta.
  rewrite (deref_htab_bound g p h) by done. simpl.
  unfold hash_search_ENTER. rewrite Hk. simpl.
  replace (cassert && bool_decide (k = 0)) with false.
  - rewrite Hc. do 2 f_equal. rewrite alter_insert_eq. done.
  - destruct Hok as [->|Hne]; [done |].
    rewrite (bool_decide_eq_false_2 _ Hne). by destruct cassert.
Qed.

(** Pruning a bound, well-formed table never fails. *)
Lemma prune_bound g p h :
  RelMetaCache g = Some p → hash_tables g !! p = Some h → htab_wf h →
  pglogical_prune_relmetacache g =
    Done (store_htab (Some p) (filter (λ kv, is_valid kv.2 = true) h) g).
Proof.
  intros Hc Hp Hwf. unfold pglogical_prune_relmetacache.
  rewrite (deref_htab_bound g p h) by done. simpl.
  rewrite prune_loop_wf by done. simpl. by rewrite Hc.
Qed.

Lemma callback_bound arg k g p h :
  RelMetaCache g = Some p → hash_tables g !! p = Some h →
  relmeta_cache_callback arg k g =
    Done (store_htab (Some p) (alter (set_is_valid false) k h) g).
Proof.
  intros Hc Hp. destruct (h !! k) as [e|] eqn:Hk.
  - unfold relmeta_cache_callback. rewrite Hc. simpl. rewrite Hp. simpl.
    unfold hash_search_FIND. by rewrite Hk.
  - rewrite alter_id, store_htab_same by (done || congruence).
    unfold relmeta_cache_callback. rewrite Hc. simpl. rewrite Hp. simpl.
    unfold hash_search_FIND. by rewrite Hk.
Qed.

Lemma destroy_bound g p h :
  RelMetaCache g = Some p → hash_tables g !! p = Some h →
  pglogical_destroy_relmetacache g =
    Done (set_RelMetaCache None (set_hash_tables (delete p (hash_tables g)) g)).
Proof.
  intros Hc Hp. unfold pglogical_destroy_relmetacache, pglogical_destroy_relmetacache_body.
  rewrite Hc. simpl. rewrite Hc. simpl. by rewrite Hp.
Qed.
End state_facts.

(** ** Invariants of every call sequence *)

Section invariants.
Implicit Types (g : process_state) (h : gmap N PGLRelMetaCacheEntry).

Lemma htab_wf_alter h k (f : PGLRelMetaCacheEntry → PGLRelMetaCacheEntry) :
  (∀ e, relid (f e) = relid e) → htab_wf h → htab_wf (alter f k h).
Proof.
  intros Hf Hwf j e. rewrite lookup_alter. case_decide as Hjk.
  - subst j. destruct (h !! k) as [e0|] eqn:Hk; [|done].
    simpl. intros [= <-]. rewrite Hf. by apply (Hwf k).
  - apply Hwf.
Qed.

Lemma htab_wf_filter h (P : N * PGLRelMetaCacheEntry → Prop) `{!∀ x, Decision (P x)} :
  htab_wf h → htab_wf (filter P h).
Proof. intros Hwf j e [Hj _]%map_lookup_filter_Some. by apply Hwf. Qed.

Lemma tables_wf_store g p h :
  tables_wf g → htab_wf h → tables_wf (store_htab (Some p) h g).
Proof. intros Hg Hh. unfold tables_wf. simpl. by apply map_Forall_insert_2. Qed.

Lemma handle_ok_store g p h :
  RelMetaCache g = Some p → handle_ok (store_htab (Some p) h g).
Proof.
  intros Hc q. simpl. rewrite Hc. intros [= <-]. rewrite lookup_insert_eq. eauto.
Qed.

Lemma session_inv_bound g p :
  session_inv g → RelMetaCache g = Some p →
  ∃ h, hash_tables g !! p = Some h ∧ htab_wf h.
Proof.
  intros [Hok Hwf] Hc. destruct (Hok p Hc) as [h Hp].
  exists h. split; [done |]. by apply (Hwf p).
Qed.

Lemma init_inv cassert g g' :
  session_inv g → pglogical_init_relmetacache cassert g = Done g' → session_inv g'.
Proof.
  intros [Hok Hwf]. unfold pglogical_init_relmetacache.
  destruct (cassert && _); [done |]. unfold hash_create.
  set (p := fresh ({[0]} ∪ dom (hash_tables g))).
  assert (session_inv (set_RelMetaCache (Some p)
            (set_hash_tables (<[p := ∅]> (hash_tables g)) g))) as Hinv.
  { split.
    - intros q. simpl. intros [= <-]. rewrite lookup_insert_eq. eauto.
    - unfold tables_wf. simpl. apply map_Forall_insert_2; [|done].
      unfold htab_wf. apply map_Forall_empty. }
  simpl. destruct (callback_registered g); simpl; intros [= <-]; [done |].
  destruct Hinv as [H1 H2]. split; [apply H1 | apply H2].
Qed.

Lemma callback_inv arg k g g' :
  session_inv g → relmeta_cache_callback arg k g = Done g' → session_inv g'.
Proof.
  intros Hinv. destruct (RelMetaCache g) as [p|] eqn:Hc.
  - destruct (session_inv_bound g p Hinv Hc) as (h & Hp & Hwf).
    rewrite (callback_bound arg k g p h) by done. intros [= <-].
    split; [by apply handle_ok_store |].
    apply tables_wf_store; [apply Hinv |]. by apply htab_wf_alter.
  - unfold relmeta_cache_callback. rewrite Hc. by intros [= <-].
Qed.

Lemma cache_relmeta_inv cassert raw k g g' r :
  session_inv g → pglogical_cache_relmeta cassert raw k g = Done (g', r) →
  session_inv g'.
Proof.
  intros Hinv. destruct (RelMetaCache g) as [p|] eqn:Hc.
  - destruct (session_inv_bound g p Hinv Hc) as (h & Hp & Hwf).
    destruct (h !! k) as [e|] eqn:Hk.
    + rewrite (cache_relmeta_found cassert raw k g p h e) by done. by intros [= <- _].
    + destruct (decide (cassert = false ∨ k ≠ 0)) as [Hgo|Hstop].
      * rewrite (cache_relmeta_missing cassert raw k g p h) by done. intros [= <- _].
        split; [by apply handle_ok_store |].
        apply tables_wf_store; [apply Hinv |].
        unfold htab_wf. by apply map_Forall_insert_2.
      * unfold pglogical_cache_relmeta.
        rewrite (deref_htab_bound g p h) by done. simpl.
        unfold hash_search_ENTER. rewrite Hk. simpl.
        destruct cassert; [|by destruct Hstop; left].
        destruct (decide (k = 0)) as [->|Hne]; [done |]. destruct Hstop. by right.
  - unfold pglogical_cache_relmeta. rewrite Hc. done.
Qed.

Lemma destroy_inv g g' :
  session_inv g → pglogical_destroy_relmetacache g = Done g' → session_inv g'.
Proof.
  intros Hinv. destruct (RelMetaCache g) as [p|] eqn:Hc.
  - destruct (session_inv_bound g p Hinv Hc) as (h & Hp & Hwf).
    rewrite (destroy_bound g p h) by done. intros [= <-]. split.
    + by intros q.
    + unfold tables_wf. simpl. apply map_Forall_delete, Hinv.
  - unfold pglogical_destroy_relmetacache, pglogical_destroy_relmetacache_body.
    rewrite Hc. by intros [= <-].
Qed.

Lemma prune_inv g g' :
  session_inv g → pglogical_prune_relmetacache g = Done g' → session_inv g'.
Proof.
  intros Hinv. destruct (RelMetaCache g) as [p|] eqn:Hc.
  - destruct (session_inv_bound g p Hinv Hc) as (h & Hp & Hwf).
    rewrite (prune_bound g p h) by done. intros [= <-].
    split; [by apply handle_ok_store |].
    apply tables_wf_store; [apply Hinv |]. by apply htab_wf_filter.
  - unfold pglogical_prune_relmetacache. rewrite Hc. done.
Qed.

Lemma step_inv cassert c g g' :
  session_inv g → step cassert c g = Done g' → session_inv g'.
Proof.
  intros Hinv. destruct c as [|arg k|raw k| |]; simpl.
  - by apply init_inv.
  - by apply callback_inv.
  - destruct (pglogical_cache_relmeta cassert raw k g) as [[g1 r]| | |] eqn:Hrun;
      simpl; try done.
    intros [= <-]. by eapply cache_relmeta_inv.
  - by apply destroy_inv.
  - by apply prune_inv.
Qed.

Lemma initial_inv : session_inv initial_process.
Proof.
  split.
  - by intros p.
  - unfold tables_wf. simpl. apply map_Forall_empty.
Qed.

(** Whatever the plugin and the host did since the backend started, the
    static pointer is NULL or designates a live, well-formed table. *)
Lemma run_inv cassert cs : ∀ g g',
  session_inv g → run cassert cs g = Done g' → session_inv g'.
Proof.
  induction cs as [|c cs IH]; intros g g' Hinv; simpl.
  - by intros [= <-].
  - destruct (step cassert c g) as [g1| | |] eqn:Hstep; simpl; try done.
    apply IH. by eapply step_inv.
Qed.
End invariants.

(** ** Registration with the host *)

Section registration.
Implicit Types (g : process_state).

Lemma registration_store g hashp h :
  registration (store_htab hashp h g) = registration g.
Proof. by destruct hashp. Qed.

Lemma callback_registration arg k g g' :
  relmeta_cache_callback arg k g = Done g' → registration g' = registration g.
Proof.
  unfold relmeta_cache_callback. destruct (RelMetaCache g) as [p|]; [|by intros [= <-]].
  simpl. destruct (hash_tables g !! p) as [h|]; [|done]. simpl.
  destruct (hash_search_FIND h k); by intros [= <-].
Qed.

Lemma cache_relmeta_registration cassert raw k g g' r :
  pglogical_cache_relmeta cassert raw k g = Done (g', r) →
  registration g' = registration g.
Proof.
  unfold pglogical_cache_relmeta.
  destruct (deref_htab (RelMetaCache g) g) as [h| | |]; simpl; try done.
  destruct (hash_search_ENTER h k raw) as [[h1 hentry] found].
  destruct found; simpl.
  - intros [= <- _]. apply registration_store.
  - destruct (cassert && _); [done |]. intros [= <- _]. apply registration_store.
Qed.

Lemma destroy_registration g g' :
  pglogical_destroy_relmetacache g = Done g' → registration g' = registration g.
Proof.
  unfold pglogical_destroy_relmetacache, pglogical_destroy_relmetacache_body.
  destruct (RelMetaCache g) as [p|] eqn:Hc; [|by intros [= <-]].
  simpl. rewrite Hc. simpl. destruct (hash_tables g !! p); simpl; [|done]. by intros [= <-].
Qed.

Lemma prune_registration g g' :
  pglogical_prune_relmetacache g = Done g' → registration g' = registration g.
Proof.
  unfold pglogical_prune_relmetacache.
  destruct (deref_htab (RelMetaCache g) g) as [h| | |]; simpl; try done.
  destruct (prune_loop (hash_seq h) h) as [h'| | |]; simpl; try done.
  intros [= <-]. apply registration_store.
Qed.

(** A successful init leaves the flag set; it appends to the host's list
    only when the flag was clear. *)
Lemma init_registration cassert g g' :
  pglogical_init_relmetacache cassert g = Done g' →
  registration g' =
    (true, if callback_registered g then relcache_callback_list g
           else relcache_callback_list g ++ [(relmeta_cache_callback_fn, 0)]).
Proof.
  unfold pglogical_init_relmetacache. destruct (cassert && _); [done |].
  unfold hash_create. simpl. unfold registration.
  destruct (callback_registered g) eqn:Hr; simpl; intros [= <-]; simpl; by rewrite ?Hr.
Qed.

Lemma step_registered cassert c g g' b :
  registered_as b g → step cassert c g = Done g' →
  registered_as (b || is_Init c) g'.
Proof.
  intros [Hflag Hlen] Hstep.
  assert (is_Init c = false → registration g' = registration g) as Hframe.
  { intros Hc. destruct c as [|arg k|raw k| |]; simpl in *; try done.
    - by eapply callback_registration.
    - destruct (pglogical_cache_relmeta cassert raw k g) as [[g1 r]| | |] eqn:Hrun;
        simpl in *; try done.
      injection Hstep as <-. by eapply cache_relmeta_registration.
    - by apply destroy_registration.
    - by apply prune_registration. }
  destruct (is_Init c) eqn:Hc.
  - destruct c; try done. simpl in Hstep. apply init_registration in Hstep.
    injection Hstep as Hflag' Hlist'. rewrite orb_true_r.
    split; [done |]. unfold registrations in *. rewrite Hlist', Hflag.
    destruct b; [done |]. rewrite length_app. simpl. lia.
  - rewrite orb_false_r. specialize (Hframe eq_refl).
    injection Hframe as Hflag' Hlist'. unfold registered_as, registrations in *.
    by rewrite Hflag', Hlist'.
Qed.

Lemma run_registered cassert cs : ∀ g g' b,
  registered_as b g → run cassert cs g = Done g' →
  registered_as (b || existsb is_Init cs) g'.
Proof.
  induction cs as [|c cs IH]; intros g g' b Hreg; simpl.
  - intros [= <-]. by rewrite orb_false_r.
  - destruct (step cassert c g) as [g1| | |] eqn:Hstep; simpl; try done.
    intros Hrun. rewrite orb_assoc. eapply IH; [|done]. by eapply step_registered.
Qed.
End registration.

(** ** Lookup after invalidation *)

(** C1, the code at the failing input. An entry for relation 42 with
    [is_cached = true] is invalidated. The callback clears [is_valid], and
    the next [pglogical_cache_relmeta] for 42, which never reads
    [is_valid], still returns [true]: a cache hit on the invalidated
    entry, so the metadata is not sent again. *)
Lemma C1_hit_after_invalidation :
  let g := session_with {[42 := mkEntry 42 true true 0]} in
  let g1 := session_with {[42 := mkEntry 42 true false 0]} in
  relmeta_cache_callback 0 42 g = Done g1 ∧
  bound_table g1 ≫= (.!! 42) = Some (mkEntry 42 true false 0) ∧
  pglogical_cache_relmeta true (mkEntry 0 false false 0) 42 g1 = Done (g1, (42, true)).
Proof. repeat split; vm_compute; reflexivity. Qed.

(** ** Creation of an entry *)

(** C2, the code at the failing input. Relation 42 is not in the table and
    the element dynahash links in held [is_valid = false] (for instance an
    element recycled from the free list after pruning). The lookup reports
    a miss and clears [is_cached], but [is_valid] is not written: the new
    entry is stored with [is_valid = false]. *)
Theorem C2_new_entry_is_valid_not_set :
  pglogical_cache_relmeta false (mkEntry 7 true false 0) 42 (session_with ∅)
  = Done (session_with {[42 := mkEntry 42 false false 0]}, (42, false)).
Proof. vm_compute. reflexivity. Qed.

(** ** The pruning pass *)

(** C3. On a bound store, [pglogical_prune_relmetacache] completes; in the
    table it leaves, no entry has [is_valid = false], and every entry that
    was valid before is still stored under the same key with the same
    fields. *)
Theorem C3_prune_removes_exactly_invalid g p h :
  RelMetaCache g = Some p → hash_tables g !! p = Some h → htab_wf h →
  ∃ g' h',
    pglogical_prune_relmetacache g = Done g' ∧
    RelMetaCache g' = Some p ∧ hash_tables g' !! p = Some h' ∧
    (∀ k e, h' !! k = Some e → is_valid e = true) ∧
    (∀ k e, h !! k = Some e → is_valid e = true → h' !! k = Some e).
Proof.
  intros Hc Hp Hwf.
  exists (store_htab (Some p) (filter (λ kv, is_valid kv.2 = true) h) g),
         (filter (λ kv, is_valid kv.2 = true) h).
  split; [by apply prune_bound |].
  split; [done |].
  split; [simpl; apply lookup_insert_eq |].
  split.
  - intros k e [_ Hv]%map_lookup_filter_Some. done.
  - intros k e Hk Hv. by apply map_lookup_filter_Some.
Qed.

Lemma C3_prune_removes_exactly_invalid_witness :
  ∃ g' h',
    pglogical_prune_relmetacache
      (session_with {[1 := mkEntry 1 true false 0; 2 := mkEntry 2 true true 0]}) = Done g' ∧
    RelMetaCache g' = Some 1 ∧ hash_tables g' !! 1 = Some h' ∧
    (∀ k e, h' !! k = Some e → is_valid e = true) ∧
    (∀ k e, ({[1 := mkEntry 1 true false 0; 2 := mkEntry 2 true true 0]}
               : gmap N PGLRelMetaCacheEntry) !! k = Some e →
            is_valid e = true → h' !! k = Some e).
Proof.
  apply (C3_prune_removes_exactly_invalid
           (session_with {[1 := mkEntry 1 true false 0; 2 := mkEntry 2 true true 0]}) 1).
  - reflexivity.
  - reflexivity.
  - apply map_Forall_insert_2; [reflexivity |].
    apply map_Forall_singleton. reflexivity.
Defined.

(** ** The invalidation callback *)

Lemma callback_overwrite_is_cached c arg k g :
  relmeta_cache_callback arg k (overwrite_is_cached c g)
  = g' ← relmeta_cache_callback arg k g; Done (overwrite_is_cached c g').
Proof.
  unfold relmeta_cache_callback. simpl.
  destruct (RelMetaCache g) as [p|] eqn:Hc; [|done]. simpl.
  rewrite lookup_fmap. destruct (hash_tables g !! p) as [h|] eqn:Hp; [|done]. simpl.
  unfold hash_search_FIND. rewrite lookup_fmap.
  destruct (h !! k) as [e|] eqn:Hk; [|done]. simpl. f_equal.
  unfold overwrite_is_cached, set_hash_tables. simpl. f_equal.
  rewrite fmap_insert. f_equal.
  apply map_eq. intros j. rewrite lookup_fmap, !lookup_alter.
  case_decide; [|by rewrite lookup_fmap].
  subst j. rewrite lookup_fmap. by destruct (h !! k).
Qed.

(** C4. On a bound store the callback returns normally and changes nothing
    but the [is_valid] field of the entry stored under [relid], which
    becomes [false]: the pointer, the registration flag, the host's callback
    list and every other table are as before; the table has the same keys;
    entries under other keys are identical; the entry under [relid] keeps
    its other fields. [is_cached] is not consulted either: overwriting
    every [is_cached] before the call or after it gives the same state. *)
Theorem C4_callback_only_clears_is_valid arg k g p h :
  RelMetaCache g = Some p → hash_tables g !! p = Some h →
  ∃ g' h',
    relmeta_cache_callback arg k g = Done g' ∧
    RelMetaCache g' = RelMetaCache g ∧
    callback_registered g' = callback_registered g ∧
    relcache_callback_list g' = relcache_callback_list g ∧
    hash_tables g' !! p = Some h' ∧
    (∀ q, q ≠ p → hash_tables g' !! q = hash_tables g !! q) ∧
    dom h' = dom h ∧
    (∀ j, j ≠ k → h' !! j = h !! j) ∧
    h' !! k = set_is_valid false <$> h !! k ∧
    (∀ c, relmeta_cache_callback arg k (overwrite_is_cached c g)
          = Done (overwrite_is_cached c g')).
Proof.
  intros Hc Hp.
  exists (store_htab (Some p) (alter (set_is_valid false) k h) g),
         (alter (set_is_valid false) k h).
  assert (relmeta_cache_callback arg k g
          = Done (store_htab (Some p) (alter (set_is_valid false) k h) g)) as Hrun
    by (by apply callback_bound).
  split; [done |].
  split; [done |].
  split; [done |].
  split; [done |].
  split; [simpl; apply lookup_insert_eq |].
  split; [intros q Hq; simpl; by rewrite lookup_insert_ne |].
  split; [apply dom_alter_L |].
  split; [intros j Hj; by rewrite lookup_alter_ne |].
  split; [apply lookup_alter_eq |].
  intros c. rewrite callback_overwrite_is_cached, Hrun. done.
Qed.

Lemma C4_callback_only_clears_is_valid_witness :
  ∃ g' h',
    relmeta_cache_callback 0 1
      (session_with {[1 := mkEntry 1 true true 5; 2 := mkEntry 2 true true 6]}) = Done g' ∧
    RelMetaCache g' = Some 1 ∧
    callback_registered g' = true ∧
    relcache_callback_list g' = [(relmeta_cache_callback_fn, 0)] ∧
    hash_tables g' !! 1 = Some h' ∧
    (∀ q, q ≠ 1 →
       hash_tables g' !! q
       = hash_tables
           (session_with {[1 := mkEntry 1 true true 5; 2 := mkEntry 2 true true 6]}) !! q) ∧
    dom h' = dom ({[1 := mkEntry 1 true true 5; 2 := mkEntry 2 true true 6]}
                    : gmap N PGLRelMetaCacheEntry) ∧
    (∀ j, j ≠ 1 →
       h' !! j = ({[1 := mkEntry 1 true true 5; 2 := mkEntry 2 true true 6]}
                    : gmap N PGLRelMetaCacheEntry) !! j) ∧
    h' !! 1 = set_is_valid false
                <$> ({[1 := mkEntry 1 true true 5; 2 := mkEntry 2 true true 6]}
                       : gmap N PGLRelMetaCacheEntry) !! 1 ∧
    (∀ c, relmeta_cache_callback 0 1
            (overwrite_is_cached c
               (session_with {[1 := mkEntry 1 true true 5; 2 := mkEntry 2 true true 6]}))
          = Done (overwrite_is_cached c g')).
Proof.
  apply (C4_callback_only_clears_is_valid 0 1
           (session_with {[1 := mkEntry 1 true true 5; 2 := mkEntry 2 true true 6]}) 1).
  - reflexivity.
  - reflexivity.
Defined.

(** ** Registering the callback once *)

(** C5. After any sequence of calls made since the backend started, the
    callback is on the host's list once if the sequence contains a
    successful [pglogical_init_relmetacache] and not at all otherwise, and
    [callback_registered] says which. One more init then leaves it on the
    list once; if an init had already happened it leaves the flag and the
    list exactly as they were. Such a further init does return when the
    build has no assertions or the previous session was torn down. *)
Theorem C5_callback_registered_once cassert cs g :
  run cassert cs initial_process = Done g →
  registrations g = (if existsb is_Init cs then 1%nat else 0%nat) ∧
  callback_registered g = existsb is_Init cs ∧
  (cassert = false ∨ RelMetaCache g = None →
   ∃ g', pglogical_init_relmetacache cassert g = Done g') ∧
  ∀ g', pglogical_init_relmetacache cassert g = Done g' →
        registrations g' = 1%nat ∧ callback_registered g' = true ∧
        (existsb is_Init cs = true →
         relcache_callback_list g' = relcache_callback_list g).
Proof.
  intros Hrun.
  destruct (run_registered cassert cs initial_process g false) as [Hflag Hlen]; [done.. |].
  simpl in Hflag, Hlen.
  split; [done |]. split; [done |].
  split.
  { intros Hgo. unfold pglogical_init_relmetacache.
    replace (cassert && bool_decide (RelMetaCache g ≠ None)) with false.
    - unfold hash_create. simpl. destruct (callback_registered g); simpl; eauto.
    - destruct Hgo as [-> | ->]; [done |]. by rewrite andb_false_r. }
  intros g' Hinit.
  destruct (step_registered cassert Init g g' (existsb is_Init cs)) as [Hflag' Hlen'];
    [done.. |].
  rewrite orb_true_r in Hflag', Hlen'.
  split; [done |]. split; [done |].
  intros Hany. apply init_registration in Hinit.
  injection Hinit as _ ->. by rewrite Hflag, Hany.
Qed.

Lemma C5_callback_registered_once_witness :
  let cs := [Init; Lookup (mkEntry 0 true true 0) 42; Invalidate 0 42; Prune; Destroy;
             Invalidate 0 42; Init; Destroy] in
  let g := mkProcess None true [(relmeta_cache_callback_fn, 0)] ∅ in
  registrations g = (if existsb is_Init cs then 1%nat else 0%nat) ∧
  callback_registered g = existsb is_Init cs ∧
  (true = false ∨ RelMetaCache g = None →
   ∃ g', pglogical_init_relmetacache true g = Done g') ∧
  ∀ g', pglogical_init_relmetacache true g = Done g' →
        registrations g' = 1%nat ∧ callback_registered g' = true ∧
        (existsb is_Init cs = true →
         relcache_callback_list g' = relcache_callback_list g).
Proof.
  apply (C5_callback_registered_once true
           [Init; Lookup (mkEntry 0 true true 0) 42; Invalidate 0 42; Prune; Destroy;
            Invalidate 0 42; Init; Destroy]
           (mkProcess None true [(relmeta_cache_callback_fn, 0)] ∅)).
  vm_compute. reflexivity.
Defined.

(** ** Notifications with nothing to invalidate *)

(** C6. When [RelMetaCache] is NULL, and when it designates a table that has
    no entry for [relid], the callback returns normally and the whole
    process state is what it was. *)
Theorem C6_callback_ignores_unknown arg k g :
  RelMetaCache g = None ∨
  (∃ p h, RelMetaCache g = Some p ∧ hash_tables g !! p = Some h ∧ h !! k = None) →
  relmeta_cache_callback arg k g = Done g.
Proof.
  intros [Hc | (p & h & Hc & Hp & Hk)].
  - unfold relmeta_cache_callback. by rewrite Hc.
  - unfold relmeta_cache_callback. rewrite Hc. simpl. rewrite Hp. simpl.
    unfold hash_search_FIND. by rewrite Hk.
Qed.

Lemma C6_callback_ignores_unknown_witness :
  relmeta_cache_callback 0 42 (mkProcess None true [(relmeta_cache_callback_fn, 0)] ∅)
  = Done (mkProcess None true [(relmeta_cache_callback_fn, 0)] ∅) ∧
  relmeta_cache_callback 0 42 (session_with {[7 := mkEntry 7 true true 0]})
  = Done (session_with {[7 := mkEntry 7 true true 0]}).
Proof.
  split.
  - apply (C6_callback_ignores_unknown 0 42). left. reflexivity.
  - apply (C6_callback_ignores_unknown 0 42). right.
    exists 1, {[7 := mkEntry 7 true true 0]}. repeat split; reflexivity.
Defined.

(** ** Teardown order *)

(** C7, counterexample. Tearing down a session with one entry: after the
    first statement of the guarded block the table is gone while
    [RelMetaCache] still holds its address, so the pointer dangles, and the
    callback run on that state dereferences it. *)
Lemma C7_handle_dangles_during_destroy :
  let g := session_with {[42 := mkEntry 42 true true 0]} in
  ∃ g_mid,
    g_mid ∈ exec_trace (pglogical_destroy_relmetacache_body g) g ∧
    RelMetaCache g_mid = Some 1 ∧ hash_tables g_mid !! 1 = None ∧
    ¬ handle_ok g_mid ∧
    relmeta_cache_callback 0 42 g_mid = Undefined FreedPointer.
Proof.
  exists (mkProcess (Some 1) true [(relmeta_cache_callback_fn, 0)] ∅).
  split; [vm_compute; left |].
  split; [reflexivity |]. split; [reflexivity |].
  split; [|reflexivity].
  intros Hok. destruct (Hok 1 eq_refl) as [h Hh]. vm_compute in Hh. discriminate.
Qed.

(** C7, amended. [pglogical_destroy_relmetacache] on a bound store runs two
    statements: the first destroys the table and leaves [RelMetaCache]
    pointing at it, the second sets [RelMetaCache] to NULL. The call returns
    in the second state, where the pointer is NULL and every notification
    is ignored. *)
Theorem C7_destroy_then_unbind g p h :
  RelMetaCache g = Some p → hash_tables g !! p = Some h →
  let g_mid := set_hash_tables (delete p (hash_tables g)) g in
  let g_end := set_RelMetaCache None g_mid in
  exec_trace (pglogical_destroy_relmetacache_body g) g = [g_mid; g_end] ∧
  RelMetaCache g_mid = Some p ∧ hash_tables g_mid !! p = None ∧
  pglogical_destroy_relmetacache g = Done g_end ∧
  handle_ok g_end ∧
  ∀ arg k, relmeta_cache_callback arg k g_end = Done g_end.
Proof.
  intros Hc Hp g_mid g_end.
  split.
  { unfold pglogical_destroy_relmetacache_body. rewrite Hc. simpl.
    rewrite Hc. simpl. by rewrite Hp. }
  split; [done |].
  split; [simpl; apply lookup_delete_eq |].
  split; [by eapply destroy_bound |].
  split; [by intros q |].
  done.
Qed.

Lemma C7_destroy_then_unbind_witness :
  let g := session_with {[42 := mkEntry 42 true true 0]} in
  let g_mid := set_hash_tables (delete 1 (hash_tables g)) g in
  let g_end := set_RelMetaCache None g_mid in
  exec_trace (pglogical_destroy_relmetacache_body g) g = [g_mid; g_end] ∧
  RelMetaCache g_mid = Some 1 ∧ hash_tables g_mid !! 1 = None ∧
  pglogical_destroy_relmetacache g = Done g_end ∧
  handle_ok g_end ∧
  ∀ arg k, relmeta_cache_callback arg k g_end = Done g_end.
Proof.
  apply (C7_destroy_then_unbind (session_with {[42 := mkEntry 42 true true 0]}) 1
           {[42 := mkEntry 42 true true 0]}).
  - reflexivity.
  - reflexivity.
Defined.

(** ** The consistency check of the pruning pass *)



(** ** Lookup of an existing entry *)

(** C9. When the table has an entry for the relation, the lookup writes
    nothing: the process state afterwards is the state before, so the entry
    keeps its [is_valid] and [is_cached]; the pointer handed back designates
    that entry and the value returned is its [is_cached]. *)
Theorem C9_lookup_existing_is_read_only cassert raw k g p h e :
  RelMetaCache g = Some p → hash_tables g !! p = Some h → h !! k = Some e →
  ∃ hentry,
    pglogical_cache_relmeta cassert raw k g = Done (g, (hentry, is_cached e)) ∧
    bound_table g ≫= (.!! hentry) = Some e.
Proof.
  intros Hc Hp Hk. exists k.
  split; [by eapply cache_relmeta_found |].
  by rewrite (bound_table_Some g p h).
Qed.

Lemma C9_lookup_existing_is_read_only_witness :
  ∃ hentry,
    pglogical_cache_relmeta true (mkEntry 0 false true 9) 42
      (session_with {[42 := mkEntry 42 true false 3]})
    = Done (session_with {[42 := mkEntry 42 true false 3]},
            (hentry, is_cached (mkEntry 42 true false 3))) ∧
    bound_table (session_with {[42 := mkEntry 42 true false 3]}) ≫= (.!! hentry)
    = Some (mkEntry 42 true false 3).
Proof.
  apply (C9_lookup_existing_is_read_only true (mkEntry 0 false true 9) 42
           (session_with {[42 := mkEntry 42 true false 3]}) 1
           {[42 := mkEntry 42 true false 3]}).
  - reflexivity.
  - reflexivity.
  - reflexivity.
Defined.

(** ** Pruning needs a bound store *)

(** C10. In a state every call sequence can reach, the pruning pass returns
    normally exactly when [RelMetaCache] is bound. With the pointer NULL it
    dereferences NULL, whereas the callback and the teardown both return
    with the state untouched; in particular pruning after a teardown
    dereferences NULL. *)
Theorem C10_prune_requires_bound_store g :
  handle_ok g → tables_wf g →
  ((∃ g', pglogical_prune_relmetacache g = Done g') ↔ RelMetaCache g ≠ None) ∧
  (RelMetaCache g = None →
   pglogical_prune_relmetacache g = Undefined NullPointer ∧
   pglogical_destroy_relmetacache g = Done g ∧
   ∀ arg k, relmeta_cache_callback arg k g = Done g) ∧
  (∀ g', pglogical_destroy_relmetacache g = Done g' →
         pglogical_prune_relmetacache g' = Undefined NullPointer).
Proof.
  intros Hok Hwf.
  assert (∀ g0, RelMetaCache g0 = None →
                pglogical_prune_relmetacache g0 = Undefined NullPointer) as Hnull.
  { intros g0 Hc. unfold pglogical_prune_relmetacache. by rewrite Hc. }
  split; [|split].
  - split.
    + intros [g' Hrun] Hc. rewrite (Hnull g Hc) in Hrun. done.
    + intros Hc. destruct (RelMetaCache g) as [p|] eqn:Hcp; [|done].
      destruct (session_inv_bound g p (conj Hok Hwf) Hcp) as (h & Hp & Hh).
      eexists. by apply (prune_bound g p h).
  - intros Hc. split; [by apply Hnull |]. split.
    + unfold pglogical_destroy_relmetacache, pglogical_destroy_relmetacache_body.
      by rewrite Hc.
    + intros arg k. unfold relmeta_cache_callback. by rewrite Hc.
  - intros g' Hrun. apply Hnull.
    destruct (RelMetaCache g) as [p|] eqn:Hcp.
    + destruct (session_inv_bound g p (conj Hok Hwf) Hcp) as (h & Hp & Hh).
      rewrite (destroy_bound g p h) in Hrun by done. by injection Hrun as <-.
    + unfold pglogical_destroy_relmetacache, pglogical_destroy_relmetacache_body in Hrun.
      rewrite Hcp in Hrun. simpl in Hrun. by injection Hrun as <-.
Qed.

Lemma C10_prune_requires_bound_store_witness :
  let g := session_with {[42 := mkEntry 42 true false 0]} in
  ((∃ g', pglogical_prune_relmetacache g = Done g') ↔ RelMetaCache g ≠ None) ∧
  (RelMetaCache g = None →
   pglogical_prune_relmetacache g = Undefined NullPointer ∧
   pglogical_destroy_relmetacache g = Done g ∧
   ∀ arg k, relmeta_cache_callback arg k g = Done g) ∧
  (∀ g', pglogical_destroy_relmetacache g = Done g' →
         pglogical_prune_relmetacache g' = Undefined NullPointer).
Proof.
  apply (C10_prune_requires_bound_store (session_with {[42 := mkEntry 42 true false 0]})).
  - intros p [= <-]. exists {[42 := mkEntry 42 true false 0]}. reflexivity.
  - apply map_Forall_singleton. apply map_Forall_singleton. reflexivity.
Defined.


(** ** Further facts about the five functions *)

Section more_state_facts.
Implicit Types (g : process_state) (h : gmap N PGLRelMetaCacheEntry).

Lemma store_htab_twice g p h1 h2 :
  store_htab (Some p) h2 (store_htab (Some p) h1 g) = store_htab (Some p) h2 g.
Proof.
  destruct g as [c r l t]. unfold store_htab, set_hash_tables. simpl.
  by rewrite insert_insert_eq.
Qed.

Lemma store_htab_lookup g p h :
  hash_tables (store_htab (Some p) h g) !! p = Some h.
Proof. simpl. apply lookup_insert_eq. Qed.

(** The two ways a lookup can return. *)
Lemma cache_relmeta_Done_inv cassert raw k g g' hentry r :
  pglogical_cache_relmeta cassert raw k g = Done (g', (hentry, r)) →
  ∃ p h, RelMetaCache g = Some p ∧ hash_tables g !! p = Some h ∧ hentry = k ∧
    ((∃ e, h !! k = Some e ∧ g' = g ∧ r = is_cached e) ∨
     (h !! k = None ∧ r = false ∧
      g' = store_htab (Some p)
             (<[k := mkEntry k false (is_valid raw) (api_private raw)]> h) g)).
Proof.
  intros Hrun. destruct (RelMetaCache g) as [p|] eqn:Hc.
  - destruct (hash_tables g !! p) as [h|] eqn:Hp.
    + exists p, h. split; [done |]. split; [done |].
      destruct (h !! k) as [e|] eqn:Hk.
      * rewrite (cache_relmeta_found cassert raw k g p h e) in Hrun by done.
        injection Hrun as <- <- <-. split; [done |]. left. by exists e.
      * destruct (decide (cassert = false ∨ k ≠ 0)) as [Hgo|Hstop].
        -- rewrite (cache_relmeta_missing cassert raw k g p h) in Hrun by done.
           injection Hrun as <- <- <-. split; [done |]. by right.
        -- exfalso. unfold pglogical_cache_relmeta in Hrun.
           rewrite (deref_htab_bound g p h) in Hrun by done. simpl in Hrun.
           unfold hash_search_ENTER in Hrun. rewrite Hk in Hrun. simpl in Hrun.
           destruct cassert; [|by destruct Hstop; left].
           destruct (decide (k = 0)) as [->|Hne]; [done |]. destruct Hstop. by right.
    + unfold pglogical_cache_relmeta in Hrun. rewrite Hc in Hrun. simpl in Hrun.
      by rewrite Hp in Hrun.
  - unfold pglogical_cache_relmeta in Hrun. by rewrite Hc in Hrun.
Qed.

(** The ways the callback can return. *)
Lemma callback_Done_inv arg k g g' :
  relmeta_cache_callback arg k g = Done g' →
  (RelMetaCache g = None ∧ g' = g) ∨
  (∃ p h, RelMetaCache g = Some p ∧ hash_tables g !! p = Some h ∧
          g' = store_htab (Some p) (alter (set_is_valid false) k h) g).
Proof.
  intros Hrun. destruct (RelMetaCache g) as [p|] eqn:Hc.
  - right. destruct (hash_tables g !! p) as [h|] eqn:Hp.
    + exists p, h. rewrite (callback_bound arg k g p h) in Hrun by done.
      by injection Hrun as <-.
    + unfold relmeta_cache_callback in Hrun. rewrite Hc in Hrun. simpl in Hrun.
      by rewrite Hp in Hrun.
  - left. unfold relmeta_cache_callback in Hrun. rewrite Hc in Hrun.
    by injection Hrun as <-.
Qed.

(** The ways the teardown can return. *)
Lemma destroy_Done_inv g g' :
  pglogical_destroy_relmetacache g = Done g' →
  (RelMetaCache g = None ∧ g' = g) ∨
  (∃ p h, RelMetaCache g = Some p ∧ hash_tables g !! p = Some h ∧
          g' = set_RelMetaCache None (set_hash_tables (delete p (hash_tables g)) g)).
Proof.
  intros Hrun. destruct (RelMetaCache g) as [p|] eqn:Hc.
  - right. destruct (hash_tables g !! p) as [h|] eqn:Hp.
    + exists p, h. rewrite (destroy_bound g p h) in Hrun by done.
      by injection Hrun as <-.
    + unfold pglogical_destroy_relmetacache, pglogical_destroy_relmetacache_body in Hrun.
      rewrite Hc in Hrun. simpl in Hrun. rewrite Hc in Hrun. simpl in Hrun.
      by rewrite Hp in Hrun.
  - left. unfold pglogical_destroy_relmetacache, pglogical_destroy_relmetacache_body in Hrun.
    rewrite Hc in Hrun. by injection Hrun as <-.
Qed.

(** With nothing invalid in the scan the loop leaves the table alone. *)
Lemma prune_loop_all_valid scan : ∀ h,
  Forall (λ e, is_valid e = true) scan → prune_loop scan h = Done h.
Proof.
  induction scan as [|e scan IH]; intros h Hall; [done |].
  apply Forall_cons in Hall as [Hv Hall]. simpl. rewrite Hv. simpl. by apply IH.
Qed.

(** The way the pruning pass can return. *)
Lemma prune_Done_inv g g' :
  pglogical_prune_relmetacache g = Done g' →
  ∃ p h h', RelMetaCache g = Some p ∧ hash_tables g !! p = Some h ∧
            h' ⊆ h ∧ g' = store_htab (Some p) h' g.
Proof.
  intros Hrun. unfold pglogical_prune_relmetacache in Hrun.
  destruct (RelMetaCache g) as [p|] eqn:Hc; [|done]. simpl in Hrun.
  destruct (hash_tables g !! p) as [h|] eqn:Hp; [|done]. simpl in Hrun.
  destruct (prune_loop (hash_seq h) h) as [h'| | |] eqn:Hloop; simpl in Hrun; try done.
  injection Hrun as <-. exists p, h, h'. split; [done |]. split; [done |].
  split; [by eapply prune_loop_subseteq | done].
Qed.
End more_state_facts.

(** ** Notifications compose *)

(** X1. A notification that was delivered can be delivered again, with any
    [arg], without changing anything: the callback run on the state it
    produced returns that same state. *)
Theorem callback_idempotent arg arg' k g g1 :
  relmeta_cache_callback arg k g = Done g1 →
  relmeta_cache_callback arg' k g1 = Done g1.
Proof.
  intros [[Hc ->] | (p & h & Hc & Hp & ->)]%callback_Done_inv.
  - unfold relmeta_cache_callback. by rewrite Hc.
  - rewrite (callback_bound arg' k _ p (alter (set_is_valid false) k h));
      [|done | apply store_htab_lookup].
    rewrite store_htab_twice. do 2 f_equal.
    rewrite alter_alter_eq. apply map_eq. intros j. rewrite !lookup_alter.
    case_decide; [|done]. by destruct (h !! k).
Qed.

Lemma callback_idempotent_witness :
  relmeta_cache_callback 9 42 (session_with {[42 := mkEntry 42 true false 0]})
  = Done (session_with {[42 := mkEntry 42 true false 0]}).
Proof.
  apply (callback_idempotent 0 9 42 (session_with {[42 := mkEntry 42 true true 0]})).
  vm_compute. reflexivity.
Defined.

(** X2. Two notifications can be delivered in either order: in every process
    state, also one with no session or with a dangling pointer, running the
    callback for [k1] and then for [k2] gives the same outcome as running it
    for [k2] and then for [k1]. *)
Theorem callbacks_commute arg1 k1 arg2 k2 g :
  (g1 ← relmeta_cache_callback arg1 k1 g; relmeta_cache_callback arg2 k2 g1)
  = (g2 ← relmeta_cache_callback arg2 k2 g; relmeta_cache_callback arg1 k1 g2).
Proof.
  destruct (RelMetaCache g) as [p|] eqn:Hc.
  - destruct (hash_tables g !! p) as [h|] eqn:Hp.
    + rewrite (callback_bound arg1 k1 g p h), (callback_bound arg2 k2 g p h) by done.
      cbn [mbind outcome_bind].
      rewrite (callback_bound arg2 k2 _ p (alter (set_is_valid false) k1 h));
        [|done | apply store_htab_lookup].
      rewrite (callback_bound arg1 k1 _ p (alter (set_is_valid false) k2 h));
        [|done | apply store_htab_lookup].
      rewrite !store_htab_twice. do 2 f_equal.
      destruct (decide (k1 = k2)) as [->|Hne]; [done |].
      by apply alter_alter_ne.
    + unfold relmeta_cache_callback. rewrite Hc. simpl. by rewrite Hp.
  - unfold relmeta_cache_callback. rewrite Hc. simpl. by rewrite Hc.
Qed.

(** ** What a lookup returns and what it leaves alone *)

(** X3. Whenever a lookup returns, the store was bound and stays bound to the
    same table address; the pointer handed back designates an entry of the
    resulting table and the boolean returned is that entry's [is_cached];
    the table has the keys it had plus the one looked up; entries under
    other keys, the other tables and the registration are untouched; and in
    a well-formed table the entry handed back carries the [relid] asked
    for and the table stays well-formed. *)
Theorem lookup_postcondition cassert raw k g g' hentry r :
  pglogical_cache_relmeta cassert raw k g = Done (g', (hentry, r)) →
  ∃ p h h' e,
    RelMetaCache g = Some p ∧ hash_tables g !! p = Some h ∧
    RelMetaCache g' = Some p ∧ hash_tables g' !! p = Some h' ∧
    registration g' = registration g ∧
    (∀ q, q ≠ p → hash_tables g' !! q = hash_tables g !! q) ∧
    h' !! hentry = Some e ∧ is_cached e = r ∧
    dom h' = {[k]} ∪ dom h ∧
    (∀ j, j ≠ k → h' !! j = h !! j) ∧
    (htab_wf h → relid e = k ∧ htab_wf h').
Proof.
  intros Hrun.
  destruct (cache_relmeta_Done_inv _ _ _ _ _ _ _ Hrun)
    as (p & h & Hc & Hp & -> & [(e & Hk & -> & ->) | (Hk & -> & ->)]).
  - exists p, h, h, e. do 8 (split; [done |]).
    split.
    { assert (k ∈ dom h) as Hin by (by eapply elem_of_dom_2).
      symmetry. apply subseteq_union_1_L. by apply singleton_subseteq_l. }
    split; [done |].
    intros Hwf. split; [by apply (Hwf k) | done].
  - set (e := mkEntry k false (is_valid raw) (api_private raw)).
    exists p, h, (<[k := e]> h), e. do 3 (split; [done |]).
    split; [apply store_htab_lookup |].
    split; [done |].
    split; [intros q Hq; simpl; by rewrite lookup_insert_ne |].
    split; [apply lookup_insert_eq |].
    split; [done |].
    split; [apply dom_insert_L |].
    split; [intros j Hj; by rewrite lookup_insert_ne |].
    intros Hwf. split; [done |]. unfold htab_wf. by apply map_Forall_insert_2.
Qed.

Lemma lookup_postcondition_witness :
  ∃ p h h' e,
    RelMetaCache (session_with {[7 := mkEntry 7 true true 0]}) = Some p ∧
    hash_tables (session_with {[7 := mkEntry 7 true true 0]}) !! p = Some h ∧
    RelMetaCache (session_with {[7 := mkEntry 7 true true 0; 42 := mkEntry 42 false true 3]})
    = Some p ∧
    hash_tables (session_with {[7 := mkEntry 7 true true 0; 42 := mkEntry 42 false true 3]})
      !! p = Some h' ∧
    registration (session_with {[7 := mkEntry 7 true true 0; 42 := mkEntry 42 false true 3]})
    = registration (session_with {[7 := mkEntry 7 true true 0]}) ∧
    (∀ q, q ≠ p →
       hash_tables
         (session_with {[7 := mkEntry 7 true true 0; 42 := mkEntry 42 false true 3]}) !! q
       = hash_tables (session_with {[7 := mkEntry 7 true true 0]}) !! q) ∧
    h' !! 42 = Some e ∧ is_cached e = false ∧
    dom h' = {[42]} ∪ dom h ∧
    (∀ j, j ≠ 42 → h' !! j = h !! j) ∧
    (htab_wf h → relid e = 42 ∧ htab_wf h').
Proof.
  apply (lookup_postcondition true (mkEntry 0 true true 3) 42
           (session_with {[7 := mkEntry 7 true true 0]})).
  vm_compute. reflexivity.
Defined.

(** X4. Looking a relation up again right away gives the same answer and
    writes nothing: after a lookup returned, a second lookup of the same
    relation returns the same pointer and the same boolean and leaves the
    state as the first one left it, whatever the free memory holds. In
    particular a relation keeps being reported as a miss until somebody
    sets [is_cached]. *)
Theorem lookup_again_is_stable cassert raw raw' k g g1 hentry r :
  pglogical_cache_relmeta cassert raw k g = Done (g1, (hentry, r)) →
  pglogical_cache_relmeta cassert raw' k g1 = Done (g1, (hentry, r)).
Proof.
  intros Hrun.
  destruct (cache_relmeta_Done_inv _ _ _ _ _ _ _ Hrun)
    as (p & h & Hc & Hp & -> & [(e & Hk & -> & ->) | (Hk & -> & ->)]).
  - by eapply cache_relmeta_found.
  - set (e := mkEntry k false (is_valid raw) (api_private raw)).
    apply (cache_relmeta_found cassert raw' k _ p (<[k := e]> h) e).
    + done.
    + apply store_htab_lookup.
    + apply lookup_insert_eq.
Qed.

Lemma lookup_again_is_stable_witness :
  pglogical_cache_relmeta true (mkEntry 5 true false 1) 42
    (session_with {[42 := mkEntry 42 false true 0]})
  = Done (session_with {[42 := mkEntry 42 false true 0]}, (42, false)).
Proof.
  apply (lookup_again_is_stable true (mkEntry 0 true true 0) (mkEntry 5 true false 1) 42
           (session_with ∅)).
  vm_compute. reflexivity.
Defined.

(** ** Nothing in the file sets [is_cached] *)

(** The way an init can return. *)
Lemma init_Done_inv cassert g g' :
  pglogical_init_relmetacache cassert g = Done g' →
  ∃ p, (cassert = false ∨ RelMetaCache g = None) ∧
       hash_tables g !! p = None ∧
       RelMetaCache g' = Some p ∧
       hash_tables g' = <[p := ∅]> (hash_tables g).
Proof.
  unfold pglogical_init_relmetacache.
  destruct (cassert && bool_decide (RelMetaCache g ≠ None)) eqn:Hguard; [done |].
  unfold hash_create. set (p := fresh ({[0]} ∪ dom (hash_tables g))).
  intros Hrun. exists p. split; [|split].
  - destruct cassert; [right | by left].
    simpl in Hguard. apply bool_decide_eq_false in Hguard.
    by destruct (RelMetaCache g); [destruct Hguard |].
  - apply not_elem_of_dom. pose proof (is_fresh ({[0]} ∪ dom (hash_tables g))) as Hfresh.
    fold p in Hfresh. set_solver.
  - simpl in Hrun. by destruct (callback_registered g); injection Hrun as <-.
Qed.

Lemma step_cached_at cassert c g g' p k :
  step cassert c g = Done g' → cached_at g' p k → cached_at g p k.
Proof.
  intros Hstep (h' & e' & Hp' & Hk' & Hcached).
  destruct c as [|arg k0|raw k0| |]; simpl in Hstep.
  - apply init_Done_inv in Hstep as (p0 & _ & _ & _ & Htabs).
    rewrite Htabs in Hp'. destruct (decide (p0 = p)) as [->|Hne].
    + rewrite lookup_insert_eq in Hp'. injection Hp' as <-. by rewrite lookup_empty in Hk'.
    + rewrite lookup_insert_ne in Hp' by done. by exists h', e'.
  - apply callback_Done_inv in Hstep as [[_ ->] | (p0 & h & _ & Hp & ->)].
    + by exists h', e'.
    + simpl in Hp'. destruct (decide (p0 = p)) as [->|Hne].
      * rewrite lookup_insert_eq in Hp'. injection Hp' as <-.
        rewrite lookup_alter in Hk'. case_decide as Hkk.
        -- subst k0. destruct (h !! k) as [e|] eqn:Hk; [|done].
           injection Hk' as <-. by exists h, e.
        -- by exists h, e'.
      * rewrite lookup_insert_ne in Hp' by done. by exists h', e'.
  - destruct (pglogical_cache_relmeta cassert raw k0 g) as [[g1 [hentry r]]| | |] eqn:Hrun;
      simpl in Hstep; try done.
    injection Hstep as <-.
    apply cache_relmeta_Done_inv in Hrun
      as (p0 & h & _ & Hp & _ & [(e & _ & -> & _) | (Hk & _ & ->)]).
    + by exists h', e'.
    + simpl in Hp'. destruct (decide (p0 = p)) as [->|Hne].
      * rewrite lookup_insert_eq in Hp'. injection Hp' as <-.
        destruct (decide (k0 = k)) as [->|Hkk].
        -- rewrite lookup_insert_eq in Hk'. injection Hk' as <-. done.
        -- rewrite lookup_insert_ne in Hk' by done. by exists h, e'.
      * rewrite lookup_insert_ne in Hp' by done. by exists h', e'.
  - apply destroy_Done_inv in Hstep as [[_ ->] | (p0 & h & _ & _ & ->)].
    + by exists h', e'.
    + simpl in Hp'. apply lookup_delete_Some in Hp' as [_ Hp']. by exists h', e'.
  - apply prune_Done_inv in Hstep as (p0 & h & h1 & _ & Hp & Hsub & ->).
    simpl in Hp'. destruct (decide (p0 = p)) as [->|Hne].
    + rewrite lookup_insert_eq in Hp'. injection Hp' as <-.
      exists h, e'. split; [done |]. split; [|done]. by eapply lookup_weaken.
    + rewrite lookup_insert_ne in Hp' by done. by exists h', e'.
Qed.

Lemma run_cached_at cassert cs : ∀ g g' p k,
  run cassert cs g = Done g' → cached_at g' p k → cached_at g p k.
Proof.
  induction cs as [|c cs IH]; intros g g' p k; simpl.
  - by intros [= <-].
  - destruct (step cassert c g) as [g1| | |] eqn:Hstep; simpl; try done.
    intros Hrun Hcached. eapply step_cached_at; [done |]. by eapply IH.
Qed.

(** X5. None of the five functions sets [is_cached]: after any sequence of
    calls, an entry that has [is_cached = true] sits at a table address and
    key where an entry with [is_cached = true] already sat before the
    sequence. *)
Theorem is_cached_never_set cassert cs g g' p k :
  run cassert cs g = Done g' → cached_at g' p k → cached_at g p k.
Proof.
  revert g. induction cs as [|c cs IH]; intros g; simpl.
  - by intros [= <-].
  - destruct (step cassert c g) as [g1| | |] eqn:Hstep; simpl; try done.
    intros Hrun Hcached. apply (step_cached_at cassert c g g1 p k Hstep).
    by apply IH.
Qed.

Lemma is_cached_never_set_witness :
  cached_at (session_with {[42 := mkEntry 42 true true 0; 7 := mkEntry 7 false true 0]}) 1 42.
Proof.
  apply (is_cached_never_set false
           [Lookup (mkEntry 0 true true 0) 7; Invalidate 0 42; Lookup (mkEntry 0 true true 0) 42]
           (session_with {[42 := mkEntry 42 true true 0; 7 := mkEntry 7 false true 0]})
           (session_with {[42 := mkEntry 42 true false 0; 7 := mkEntry 7 false true 0]})).
  - vm_compute. reflexivity.
  - exists {[42 := mkEntry 42 true false 0; 7 := mkEntry 7 false true 0]},
           (mkEntry 42 true false 0).
    repeat split; vm_compute; reflexivity.
Defined.

(** X6. A lookup reports a hit only for an entry whose [is_cached] was set
    by somebody else: if after any sequence of calls a lookup returns
    [true], then the table that is bound then already had an entry for that
    relation with [is_cached = true] before the sequence. *)
Theorem hit_needs_earlier_is_cached cassert cs raw k g g' g'' hentry :
  run cassert cs g = Done g' →
  pglogical_cache_relmeta cassert raw k g' = Done (g'', (hentry, true)) →
  ∃ p, RelMetaCache g' = Some p ∧ cached_at g p k.
Proof.
  intros Hrun Hlookup.
  apply cache_relmeta_Done_inv in Hlookup
    as (p & h & Hc & Hp & _ & [(e & Hk & _ & Hr) | (_ & ? & _)]); [|done].
  exists p. split; [done |].
  eapply run_cached_at; [done |]. by exists h, e.
Qed.

Lemma hit_needs_earlier_is_cached_witness :
  ∃ p, RelMetaCache (session_with {[42 := mkEntry 42 true false 0]}) = Some p ∧
       cached_at (session_with {[42 := mkEntry 42 true true 0]}) p 42.
Proof.
  apply (hit_needs_earlier_is_cached true [Invalidate 0 42] (mkEntry 0 true true 0) 42
           (session_with {[42 := mkEntry 42 true true 0]})
           (session_with {[42 := mkEntry 42 true false 0]})
           (session_with {[42 := mkEntry 42 true false 0]}) 42).
  - vm_compute. reflexivity.
  - vm_compute. reflexivity.
Defined.

(** X7. In a backend where only the five functions of the file have run
    since it started, every lookup that returns reports a miss, whatever
    the free memory held when entries were created. *)
Theorem only_misses_without_the_hook cassert cs raw k g g' hentry r :
  run cassert cs initial_process = Done g →
  pglogical_cache_relmeta cassert raw k g = Done (g', (hentry, r)) →
  r = false.
Proof.
  intros Hrun Hlookup. destruct r; [|done]. exfalso.
  apply cache_relmeta_Done_inv in Hlookup
    as (p & h & Hc & Hp & _ & [(e & Hk & _ & Hr) | (_ & ? & _)]); [|done].
  assert (cached_at initial_process p k) as (h0 & e0 & Hp0 & _).
  { eapply run_cached_at; [done |]. by exists h, e. }
  simpl in Hp0. by rewrite lookup_empty in Hp0.
Qed.

Lemma only_misses_without_the_hook_witness :
  run true [Init; Lookup (mkEntry 9 true true 4) 42; Invalidate 0 42] initial_process
  = Done (session_with {[42 := mkEntry 42 false false 4]}) ∧
  false = false.
Proof.
  split; [vm_compute; reflexivity |].
  apply (only_misses_without_the_hook true
           [Init; Lookup (mkEntry 9 true true 4) 42; Invalidate 0 42]
           (mkEntry 8 true true 1) 42
           (session_with {[42 := mkEntry 42 false false 4]})
           (session_with {[42 := mkEntry 42 false false 4]}) 42 false).
  - vm_compute. reflexivity.
  - vm_compute. reflexivity.
Defined.

(** ** More on the pruning pass *)

(** X8. Pruning twice is pruning once: in a state with no dangling pointer
    and no corrupted table, after the pruning pass returned, running it
    again returns the same state. *)
Theorem prune_idempotent g g1 :
  session_inv g →
  pglogical_prune_relmetacache g = Done g1 →
  pglogical_prune_relmetacache g1 = Done g1.
Proof.
  intros Hinv Hrun.
  destruct (RelMetaCache g) as [p|] eqn:Hc;
    [|by unfold pglogical_prune_relmetacache in Hrun; rewrite Hc in Hrun].
  destruct (session_inv_bound g p Hinv Hc) as (h & Hp & Hwf).
  rewrite (prune_bound g p h) in Hrun by done.
  set (h1 := filter (λ kv, is_valid kv.2 = true) h) in *.
  assert (g1 = store_htab (Some p) h1 g) as -> by congruence.
  rewrite (prune_bound _ p h1); [|done | apply store_htab_lookup | by apply htab_wf_filter].
  rewrite store_htab_twice. do 2 f_equal.
  apply map_filter_id. intros j e [_ Hv]%map_lookup_filter_Some. done.
Qed.

Lemma prune_idempotent_witness :
  pglogical_prune_relmetacache (session_with {[2 := mkEntry 2 true true 0]})
  = Done (session_with {[2 := mkEntry 2 true true 0]}).
Proof.
  apply (prune_idempotent
           (session_with {[1 := mkEntry 1 true false 0; 2 := mkEntry 2 true true 0]})).
  - split.
    + intros p [= <-]. eexists. reflexivity.
    + apply map_Forall_singleton. apply map_Forall_insert_2; [reflexivity |].
      apply map_Forall_singleton. reflexivity.
  - vm_compute. reflexivity.
Defined.

(** X9. With no invalidated entry in the bound table the pruning pass
    changes nothing; this holds for every table, also a corrupted one, since
    the removal is never attempted. *)
Theorem prune_without_invalid_entries g p h :
  RelMetaCache g = Some p → hash_tables g !! p = Some h →
  (∀ k e, h !! k = Some e → is_valid e = true) →
  pglogical_prune_relmetacache g = Done g.
Proof.
  intros Hc Hp Hall. unfold pglogical_prune_relmetacache.
  rewrite (deref_htab_bound g p h) by done. cbn [mbind outcome_bind].
  rewrite prune_loop_all_valid.
  - cbn [mbind outcome_bind]. rewrite Hc. by rewrite store_htab_same.
  - apply Forall_forall. intros e (k & Hk)%elem_of_hash_seq. by eapply Hall.
Qed.

Lemma prune_without_invalid_entries_witness :
  pglogical_prune_relmetacache
    (session_with {[1 := mkEntry 5 true true 0; 2 := mkEntry 2 false true 0]})
  = Done (session_with {[1 := mkEntry 5 true true 0; 2 := mkEntry 2 false true 0]}).
Proof.
  apply (prune_without_invalid_entries
           (session_with {[1 := mkEntry 5 true true 0; 2 := mkEntry 2 false true 0]}) 1
           {[1 := mkEntry 5 true true 0; 2 := mkEntry 2 false true 0]}).
  - reflexivity.
  - reflexivity.
  - intros k e Hk. apply lookup_insert_Some in Hk as [[_ <-] | [_ Hk]]; [reflexivity |].
    apply lookup_singleton_Some in Hk as [_ <-]. reflexivity.
Defined.

(** X10. Invalidating a relation and then pruning leaves what pruning alone
    leaves, without that relation: on a bound, well-formed table both
    sequences return, and the table after notification-then-prune is the
    table after prune with the key deleted; the rest of the state is the
    same. *)
Theorem invalidate_then_prune arg k g p h :
  RelMetaCache g = Some p → hash_tables g !! p = Some h → htab_wf h →
  ∃ g1 g2 g3 h3,
    relmeta_cache_callback arg k g = Done g1 ∧
    pglogical_prune_relmetacache g1 = Done g2 ∧
    pglogical_prune_relmetacache g = Done g3 ∧
    hash_tables g3 !! p = Some h3 ∧
    g2 = store_htab (Some p) (delete k h3) g3.
Proof.
  intros Hc Hp Hwf.
  set (valid := λ kv : N * PGLRelMetaCacheEntry, is_valid kv.2 = true).
  exists (store_htab (Some p) (alter (set_is_valid false) k h) g),
         (store_htab (Some p) (delete k (filter valid h)) (store_htab (Some p) (filter valid h) g)),
         (store_htab (Some p) (filter valid h) g),
         (filter valid h).
  split; [by apply callback_bound |].
  split.
  { rewrite (prune_bound _ p (alter (set_is_valid false) k h));
      [|done | apply store_htab_lookup | by apply htab_wf_alter].
    rewrite !store_htab_twice. do 2 f_equal.
    apply map_eq. intros j. apply option_eq. intros e'.
    rewrite map_lookup_filter_Some, lookup_delete_Some, map_lookup_filter_Some,
      lookup_alter_Some.
    unfold valid. simpl. split.
    - intros [[[-> (e & _ & ->)] | [Hne Hj]] Hv]; [done | by repeat split].
    - intros (Hne & Hj & Hv). split; [by right | done]. }
  split; [by apply prune_bound |].
  split; [apply store_htab_lookup | done].
Qed.

Lemma invalidate_then_prune_witness :
  ∃ g1 g2 g3 h3,
    relmeta_cache_callback 0 2
      (session_with {[1 := mkEntry 1 true false 0; 2 := mkEntry 2 true true 0;
                      3 := mkEntry 3 false true 0]}) = Done g1 ∧
    pglogical_prune_relmetacache g1 = Done g2 ∧
    pglogical_prune_relmetacache
      (session_with {[1 := mkEntry 1 true false 0; 2 := mkEntry 2 true true 0;
                      3 := mkEntry 3 false true 0]}) = Done g3 ∧
    hash_tables g3 !! 1 = Some h3 ∧
    g2 = store_htab (Some 1) (delete 2 h3) g3.
Proof.
  apply (invalidate_then_prune 0 2
           (session_with {[1 := mkEntry 1 true false 0; 2 := mkEntry 2 true true 0;
                           3 := mkEntry 3 false true 0]}) 1
           {[1 := mkEntry 1 true false 0; 2 := mkEntry 2 true true 0;
             3 := mkEntry 3 false true 0]}).
  - reflexivity.
  - reflexivity.
  - apply map_Forall_insert_2; [reflexivity |].
    apply map_Forall_insert_2; [reflexivity |].
    apply map_Forall_singleton. reflexivity.
Defined.

(** ** Sessions *)

Lemma init_returns cassert g :
  cassert = false ∨ RelMetaCache g = None →
  ∃ g', pglogical_init_relmetacache cassert g = Done g'.
Proof.
  intros Hgo. unfold pglogical_init_relmetacache.
  replace (cassert && bool_decide (RelMetaCache g ≠ None)) with false.
  - unfold hash_create. simpl. destruct (callback_registered g); simpl; eauto.
  - destruct Hgo as [-> | ->]; [done |]. by rewrite andb_false_r.
Qed.

(** X11. Whenever init returns, the static pointer designates a table that
    was not allocated before and is empty, every table allocated before is
    untouched, and the callback is registered. It returns whenever the
    build has no assertions or no store is bound. *)
Theorem init_binds_new_empty_table cassert g :
  cassert = false ∨ RelMetaCache g = None →
  ∃ g' p,
    pglogical_init_relmetacache cassert g = Done g' ∧
    RelMetaCache g' = Some p ∧ hash_tables g !! p = None ∧
    bound_table g' = Some ∅ ∧
    (∀ q, q ≠ p → hash_tables g' !! q = hash_tables g !! q) ∧
    callback_registered g' = true.
Proof.
  intros Hgo. destruct (init_returns cassert g Hgo) as [g' Hrun].
  destruct (init_Done_inv _ _ _ Hrun) as (p & _ & Hfresh & Hc & Htabs).
  exists g', p. split; [done |]. split; [done |]. split; [done |].
  split; [|split].
  - unfold bound_table. rewrite Hc. simpl. rewrite Htabs. apply lookup_insert_eq.
  - intros q Hq. rewrite Htabs. by rewrite lookup_insert_ne.
  - apply init_registration in Hrun. by injection Hrun as ->.
Qed.

Lemma init_binds_new_empty_table_witness :
  ∃ g' p,
    pglogical_init_relmetacache false (session_with {[42 := mkEntry 42 true true 0]})
    = Done g' ∧
    RelMetaCache g' = Some p ∧
    hash_tables (session_with {[42 := mkEntry 42 true true 0]}) !! p = None ∧
    bound_table g' = Some ∅ ∧
    (∀ q, q ≠ p →
       hash_tables g' !! q
       = hash_tables (session_with {[42 := mkEntry 42 true true 0]}) !! q) ∧
    callback_registered g' = true.
Proof.
  apply (init_binds_new_empty_table false (session_with {[42 := mkEntry 42 true true 0]})).
  left. reflexivity.
Defined.

(** X12. Whenever the teardown returns, the static pointer is NULL and the
    registration is what it was; a second teardown returns without doing
    anything, whereas a lookup dereferences NULL: unlike the callback and
    the teardown, [pglogical_cache_relmeta] does not test the pointer. *)
Theorem after_destroy cassert raw k g g' :
  pglogical_destroy_relmetacache g = Done g' →
  RelMetaCache g' = None ∧
  registration g' = registration g ∧
  pglogical_destroy_relmetacache g' = Done g' ∧
  pglogical_cache_relmeta cassert raw k g' = Undefined NullPointer.
Proof.
  intros Hrun.
  assert (RelMetaCache g' = None) as Hc.
  { apply destroy_Done_inv in Hrun as [[Hc ->] | (p & h & _ & _ & ->)]; done. }
  split; [done |]. split; [by apply destroy_registration |]. split.
  - unfold pglogical_destroy_relmetacache, pglogical_destroy_relmetacache_body.
    by rewrite Hc.
  - unfold pglogical_cache_relmeta. by rewrite Hc.
Qed.

Lemma after_destroy_witness :
  let g' := mkProcess None true [(relmeta_cache_callback_fn, 0)] ∅ in
  RelMetaCache g' = None ∧
  registration g' = registration (session_with {[42 := mkEntry 42 true true 0]}) ∧
  pglogical_destroy_relmetacache g' = Done g' ∧
  pglogical_cache_relmeta true (mkEntry 0 true true 0) 42 g' = Undefined NullPointer.
Proof.
  apply (after_destroy true (mkEntry 0 true true 0) 42
           (session_with {[42 := mkEntry 42 true true 0]})).
  vm_compute. reflexivity.
Defined.

(** What a call can end in when the state is consistent. *)
Lemma step_outcomes cassert c g :
  session_inv g →
  match step cassert c g with
  | Done _ => True
  | Trap => cassert = true
  | ElogERROR _ => False
  | Undefined f => f = NullPointer
  end.
Proof.
  intros Hinv. destruct c as [|arg k|raw k| |]; simpl.
  - unfold pglogical_init_relmetacache. destruct cassert; simpl.
    + destruct (bool_decide (RelMetaCache g ≠ None)); [done |].
      by destruct (callback_registered g).
    + by destruct (callback_registered g).
  - destruct (RelMetaCache g) as [p|] eqn:Hc.
    + destruct (session_inv_bound g p Hinv Hc) as (h & Hp & Hwf).
      by rewrite (callback_bound arg k g p h).
    + unfold relmeta_cache_callback. by rewrite Hc.
  - destruct (RelMetaCache g) as [p|] eqn:Hc.
    + destruct (session_inv_bound g p Hinv Hc) as (h & Hp & Hwf).
      destruct (h !! k) as [e|] eqn:Hk.
      * by rewrite (cache_relmeta_found cassert raw k g p h e).
      * destruct (decide (cassert = false ∨ k ≠ 0)) as [Hgo|Hstop].
        -- by rewrite (cache_relmeta_missing cassert raw k g p h).
        -- unfold pglogical_cache_relmeta.
           rewrite (deref_htab_bound g p h) by done. cbn [mbind outcome_bind].
           unfold hash_search_ENTER. rewrite Hk. simpl.
           destruct cassert; [|by destruct Hstop; left].
           destruct (decide (k = 0)) as [->|Hne]; [done |]. destruct Hstop. by right.
    + unfold pglogical_cache_relmeta. by rewrite Hc.
  - destruct (RelMetaCache g) as [p|] eqn:Hc.
    + destruct (session_inv_bound g p Hinv Hc) as (h & Hp & Hwf).
      by rewrite (destroy_bound g p h).
    + unfold pglogical_destroy_relmetacache, pglogical_destroy_relmetacache_body.
      by rewrite Hc.
  - destruct (RelMetaCache g) as [p|] eqn:Hc.
    + destruct (session_inv_bound g p Hinv Hc) as (h & Hp & Hwf).
      by rewrite (prune_bound g p h).
    + unfold pglogical_prune_relmetacache. by rewrite Hc.
Qed.

(** X13. Starting from a state with no dangling pointer and no corrupted
    table, for instance a backend that just started, no sequence of calls
    to the five functions ends in [elog(ERROR, "hash table corrupted")] or
    dereferences a destroyed table. What can stop a sequence is a failed
    assertion, in builds that check them, and a NULL dereference. *)
Theorem runs_never_corrupt cassert cs : ∀ g,
  session_inv g →
  match run cassert cs g with
  | Done g' => session_inv g'
  | Trap => cassert = true
  | ElogERROR _ => False
  | Undefined f => f = NullPointer
  end.
Proof.
  induction cs as [|c cs IH]; intros g Hinv; simpl; [done |].
  pose proof (step_outcomes cassert c g Hinv) as Hstep.
  destruct (step cassert c g) as [g1| | |] eqn:Hc; simpl; try done.
  apply IH. by eapply step_inv.
Qed.

Lemma runs_never_corrupt_witness :
  match run true [Init; Lookup (mkEntry 0 true false 0) 42; Prune; Destroy; Prune]
          initial_process with
  | Done g' => session_inv g'
  | Trap => true = true
  | ElogERROR _ => False
  | Undefined f => f = NullPointer
  end.
Proof.
  apply (runs_never_corrupt true
           [Init; Lookup (mkEntry 0 true false 0) 42; Prune; Destroy; Prune]
           initial_process).
  split.
  - intros p Hp. vm_compute in Hp. discriminate.
  - apply map_Forall_empty.
Defined.

(** ** A whole decoding session *)

Section whole_session.
Implicit Types (g : process_state) (h : gmap N PGLRelMetaCacheEntry).

Lemma run_app cassert cs1 : ∀ cs2 g,
  run cassert (cs1 ++ cs2) g = g1 ← run cassert cs1 g; run cassert cs2 g1.
Proof.
  induction cs1 as [|c cs1 IH]; intros cs2 g; simpl; [done |].
  destruct (step cassert c g) as [g1| | |]; simpl; [apply IH | done..].
Qed.

(** Inside a session, a lookup, a notification or a pruning pass returns
    and stays inside the session's table. *)
Lemma session_step cassert c g p :
  session_inv g → RelMetaCache g = Some p → session_call cassert c = true →
  ∃ g', step cassert c g = Done g' ∧ RelMetaCache g' = Some p ∧ session_inv g' ∧
        registration g' = registration g ∧
        ∀ q, q ≠ p → hash_tables g' !! q = hash_tables g !! q.
Proof.
  intros Hinv Hc Hcall.
  destruct (session_inv_bound g p Hinv Hc) as (h & Hp & Hwf).
  assert (∀ h', ∀ q, q ≠ p →
            hash_tables (store_htab (Some p) h' g) !! q = hash_tables g !! q) as Hframe.
  { intros h' q Hq. simpl. by rewrite lookup_insert_ne. }
  assert (∃ g', step cassert c g = Done g' ∧
                (g' = g ∨ ∃ h', g' = store_htab (Some p) h' g)) as (g' & Hstep & Hshape).
  { destruct c as [|arg k|raw k| |]; simpl in *; try done.
    - rewrite (callback_bound arg k g p h) by done. eauto.
    - destruct (h !! k) as [e|] eqn:Hk.
      + rewrite (cache_relmeta_found cassert raw k g p h e) by done. simpl. eauto.
      + rewrite (cache_relmeta_missing cassert raw k g p h); [simpl; eauto | done.. |].
        destruct cassert; [right | by left]. simpl in Hcall.
        apply negb_true_iff, bool_decide_eq_false in Hcall. done.
    - rewrite (prune_bound g p h) by done. eauto. }
  exists g'. split; [done |].
  assert (session_inv g') as Hinv' by (by eapply step_inv).
  destruct Hshape as [-> | [h' ->]]; [done |].
  split; [done |]. split; [done |]. split; [apply registration_store | apply Hframe].
Qed.

Lemma session_body cassert body : ∀ g p,
  session_inv g → RelMetaCache g = Some p →
  forallb (session_call cassert) body = true →
  ∃ g', run cassert body g = Done g' ∧ RelMetaCache g' = Some p ∧ session_inv g' ∧
        registration g' = registration g ∧
        ∀ q, q ≠ p → hash_tables g' !! q = hash_tables g !! q.
Proof.
  induction body as [|c body IH]; intros g p Hinv Hc Hall; simpl in *.
  - by exists g.
  - apply andb_true_iff in Hall as [Hcall Hall].
    destruct (session_step cassert c g p Hinv Hc Hcall)
      as (g1 & Hstep & Hc1 & Hinv1 & Hreg1 & Hframe1).
    destruct (IH g1 p Hinv1 Hc1 Hall) as (g' & Hrun & Hc' & Hinv' & Hreg' & Hframe').
    exists g'. rewrite Hstep. simpl. split; [done |]. split; [done |]. split; [done |].
    split; [by rewrite Hreg' |]. intros q Hq. rewrite Hframe' by done. by apply Hframe1.
Qed.
End whole_session.

(** X14. A decoding session that follows the protocol never fails and
    leaves nothing behind. From a consistent state with no store bound, an
    init, then any lookups (of a valid Oid where assertions are checked),
    notifications and pruning passes, then the teardown, all return; at the
    end the pointer is NULL again, the callback is registered, and the
    allocated tables are exactly those allocated before the session. *)
Theorem whole_session_returns cassert body g :
  session_inv g → RelMetaCache g = None →
  forallb (session_call cassert) body = true →
  ∃ g', run cassert (Init :: body ++ [Destroy]) g = Done g' ∧
        RelMetaCache g' = None ∧
        callback_registered g' = true ∧
        hash_tables g' = hash_tables g ∧
        session_inv g'.
Proof.
  intros Hinv Hc Hall.
  destruct (init_returns cassert g (or_intror Hc)) as [g1 Hinit].
  destruct (init_Done_inv _ _ _ Hinit) as (p & _ & Hfresh & Hc1 & Htabs1).
  assert (session_inv g1) as Hinv1 by (by eapply init_inv).
  destruct (session_body cassert body g1 p Hinv1 Hc1 Hall)
    as (g2 & Hrun & Hc2 & Hinv2 & Hreg2 & Hframe2).
  destruct (session_inv_bound g2 p Hinv2 Hc2) as (h2 & Hp2 & Hwf2).
  set (g3 := set_RelMetaCache None (set_hash_tables (delete p (hash_tables g2)) g2)).
  assert (run cassert (Init :: body ++ [Destroy]) g = Done g3) as Hwhole.
  { simpl. rewrite Hinit. cbn [mbind outcome_bind]. rewrite run_app, Hrun.
    cbn [mbind outcome_bind run step]. by rewrite (destroy_bound g2 p h2). }
  assert (hash_tables g3 = hash_tables g) as Htabs3.
  { apply map_eq. intros q. simpl. destruct (decide (q = p)) as [->|Hq].
    - by rewrite lookup_delete_eq.
    - rewrite lookup_delete_ne by done. rewrite Hframe2 by done.
      rewrite Htabs1. by rewrite lookup_insert_ne. }
  exists g3. split; [done |]. split; [done |]. split; [|split; [done |]].
  - apply init_registration in Hinit. injection Hinit as Hflag _.
    injection Hreg2 as Hflag2 _. simpl. by rewrite Hflag2.
  - apply (run_inv cassert (Init :: body ++ [Destroy]) g g3 Hinv Hwhole).
Qed.

Lemma whole_session_returns_witness :
  ∃ g', run true
          (Init :: [Lookup (mkEntry 0 true false 0) 42; Invalidate 0 42; Invalidate 0 7;
                    Lookup (mkEntry 0 true true 0) 42; Prune;
                    Lookup (mkEntry 0 true true 0) 42] ++ [Destroy])
          initial_process = Done g' ∧
        RelMetaCache g' = None ∧
        callback_registered g' = true ∧
        hash_tables g' = hash_tables initial_process ∧
        session_inv g'.
Proof.
  apply (whole_session_returns true
           [Lookup (mkEntry 0 true false 0) 42; Invalidate 0 42; Invalidate 0 7;
            Lookup (mkEntry 0 true true 0) 42; Prune; Lookup (mkEntry 0 true true 0) 42]
           initial_process).
  - split.
    + intros p Hp. vm_compute in Hp. discriminate.
    + apply map_Forall_empty.
  - reflexivity.
  - vm_compute. reflexivity.
Defined.

(** ** Entries between pruning passes *)

Lemma quiet_step cassert c g g' p h k e :
  lookup_or_invalidate c = true → step cassert c g = Done g' →
  RelMetaCache g = Some p → hash_tables g !! p = Some h → h !! k = Some e →
  ∃ h', RelMetaCache g' = Some p ∧ hash_tables g' !! p = Some h' ∧
        (h' !! k = Some e ∨ h' !! k = Some (set_is_valid false e)).
Proof.
  intros Hquiet Hstep Hc Hp Hk.
  destruct c as [|arg k0|raw k0| |]; simpl in *; try done.
  - rewrite (callback_bound arg k0 g p h) in Hstep by done.
    assert (g' = store_htab (Some p) (alter (set_is_valid false) k0 h) g) as ->
      by congruence.
    eexists. split; [done |]. split; [apply store_htab_lookup |].
    rewrite lookup_alter. case_decide as Hkk.
    + subst k0. right. by rewrite Hk.
    + by left.
  - destruct (pglogical_cache_relmeta cassert raw k0 g) as [[g1 [hentry r]]| | |] eqn:Hrun;
      simpl in Hstep; try done.
    assert (g1 = g') as -> by congruence.
    apply cache_relmeta_Done_inv in Hrun
      as (p0 & h0 & Hc0 & Hp0 & _ & [(e0 & _ & -> & _) | (Hk0 & _ & ->)]).
    + exists h. by repeat split; [.. | left].
    + assert (p0 = p) as -> by congruence. assert (h0 = h) as -> by congruence.
      eexists. split; [done |]. split; [apply store_htab_lookup |].
      left. rewrite lookup_insert_ne; [done | congruence].
Qed.

(** X15. Between pruning passes no entry is lost and only [is_valid] can
    change, from [true] to [false]: after any sequence of lookups and
    notifications that returns, an entry that was in the bound table is
    still there under the same key, either identical or with [is_valid]
    cleared; an entry that was already invalidated is identical. *)
Theorem entries_persist_between_prunes cassert cs : ∀ g g' p h k e,
  forallb lookup_or_invalidate cs = true →
  run cassert cs g = Done g' →
  RelMetaCache g = Some p → hash_tables g !! p = Some h → h !! k = Some e →
  ∃ h', RelMetaCache g' = Some p ∧ hash_tables g' !! p = Some h' ∧
        (h' !! k = Some e ∨ h' !! k = Some (set_is_valid false e)) ∧
        (is_valid e = false → h' !! k = Some e).
Proof.
  assert (∀ e, is_valid e = false → set_is_valid false e = e) as Hsame.
  { intros [r c v a]. simpl. by intros ->. }
  induction cs as [|c cs IH]; intros g g' p h k e Hall Hrun Hc Hp Hk; simpl in *.
  - assert (g' = g) as -> by congruence. exists h. do 3 (split; [by auto |]). done.
  - apply andb_true_iff in Hall as [Hquiet Hall].
    destruct (step cassert c g) as [g1| | |] eqn:Hstep; simpl in Hrun; try done.
    destruct (quiet_step cassert c g g1 p h k e Hquiet Hstep Hc Hp Hk)
      as (h1 & Hc1 & Hp1 & [Hk1 | Hk1]).
    + by apply (IH g1 g' p h1 k e).
    + destruct (IH g1 g' p h1 k (set_is_valid false e) Hall Hrun Hc1 Hp1 Hk1)
        as (h' & Hc' & Hp' & Hk' & Hinv').
      exists h'. split; [done |]. split; [done |].
      assert (h' !! k = Some (set_is_valid false e)) as Hfinal by (by apply Hinv').
      split; [by right |]. intros Hv. rewrite Hfinal. f_equal. by apply Hsame.
Qed.

Lemma entries_persist_between_prunes_witness :
  ∃ h', RelMetaCache
          (session_with {[42 := mkEntry 42 true false 3; 7 := mkEntry 7 false true 0]})
        = Some 1 ∧
        hash_tables
          (session_with {[42 := mkEntry 42 true false 3; 7 := mkEntry 7 false true 0]}) !! 1
        = Some h' ∧
        (h' !! 42 = Some (mkEntry 42 true true 3) ∨
         h' !! 42 = Some (set_is_valid false (mkEntry 42 true true 3))) ∧
        (is_valid (mkEntry 42 true true 3) = false →
         h' !! 42 = Some (mkEntry 42 true true 3)).
Proof.
  apply (entries_persist_between_prunes true
           [Lookup (mkEntry 0 true true 0) 7; Invalidate 0 42; Invalidate 0 9;
            Lookup (mkEntry 0 true true 0) 42]
           (session_with {[42 := mkEntry 42 true true 3]})
           (session_with {[42 := mkEntry 42 true false 3; 7 := mkEntry 7 false true 0]})
           1 {[42 := mkEntry 42 true true 3]} 42 (mkEntry 42 true true 3)).
  - reflexivity.
  - vm_compute. reflexivity.
  - reflexivity.
  - reflexivity.
  - reflexivity.
Defined.
